(** * Universal Controller Script: shift layers, pedal mapping, index filters

    A shallow embedding of three parts of the script:

    - [control_surfaces/matchers/shift_matcher.py]: [ShiftView] and the
      [ShiftMatcher] state machine ([matchEvent], [tick]);
    - [plugs/mapping_strategies/pedal_strategy.py]: [pedalCallback];
    - [plugs/tick_filters/index.py]: the index filter predicates.

    Python objects are references into a store; the private attributes of a
    [ShiftMatcher] are fields of a record that is passed through every call.
    Methods of classes whose source is not part of the embedding
    ([ControlSurface.match], [ControlSurface.doTick] and the methods of the
    sub-matchers) are fields of the class [Host]: every theorem is stated
    for an arbitrary host. *)

From Stdlib Require Import List Bool Arith ZArith Lia Floats.
From Stdlib Require String.
Import ListNotations.

Set Implicit Arguments.

(** ** Results of calls *)

(** The exceptions that the embedded code raises. *)
Inductive Exn : Type :=
| TypeError
| NotImplementedError
| UnboundLocalError
| ValueError.

(** A call either returns a value or raises. *)
Inductive Outcome (A : Type) : Type :=
| Return (a : A)
| Raise (x : Exn).

Arguments Return {A} a.
Arguments Raise {A} x.

(** ** Plugin and window indexes *)

(** [UnsafeIndex]: [None], a window index (an [int]) or a plugin index (a
    [tuple] of integers: one entry for a generator, two for an effect). *)
Inductive UnsafeIndex : Type :=
| INone
| IInt (n : Z)
| ITuple (t : list Z).

(** [isinstance(index, tuple)] *)
Definition is_tuple (index : UnsafeIndex) : bool :=
  match index with ITuple _ => true | _ => false end.

(** [isinstance(index, int)] *)
Definition is_int (index : UnsafeIndex) : bool :=
  match index with IInt _ => true | _ => false end.

(** [len(index)], for a tuple *)
Definition tuple_len (index : UnsafeIndex) : nat :=
  match index with ITuple t => length t | _ => 0 end.

Definition toPluginIndex (index : UnsafeIndex) : bool :=
  is_tuple index.

Definition toGeneratorIndex (index : UnsafeIndex) : bool :=
  is_tuple index && Nat.eqb (tuple_len index) 1.

Definition toEffectIndex (index : UnsafeIndex) : bool :=
  is_tuple index && Nat.eqb (tuple_len index) 2.

Definition toWindowIndex (index : UnsafeIndex) : bool :=
  is_int index.

Definition toSafeIndex (index : UnsafeIndex) : bool :=
  match index with INone => false | _ => true end.

(** What a filtered callback does with a call. *)
Inductive Filtered (R : Type) : Type :=
| Skipped
| Invoked (r : R).

Arguments Skipped {R}.
Arguments Invoked {R} r.

(** Modelled from the spec: the decorator [do_filter] of
    [plugs/tick_filters/decorator.py] is missing. Following the design note
    on decorator-style filters, the predicate is a guard evaluated on the
    index before the bound callback is invoked; a call that the guard
    rejects does not reach the callback. *)
Definition do_filter {S C R : Type} (predicate : UnsafeIndex -> bool)
    (func : S -> C -> UnsafeIndex -> R)
    (self : S) (control : C) (index : UnsafeIndex) : Filtered R :=
  if predicate index then Invoked (func self control index) else Skipped.

(** [tests/filter_test.py]: the probe callback raises [ValueError]. *)
Definition probe (self control : unit) (index : UnsafeIndex) : Outcome unit :=
  Raise ValueError.

Definition get_function (filter : UnsafeIndex -> bool)
  : unit -> unit -> UnsafeIndex -> Filtered (Outcome unit) :=
  do_filter filter probe.

(** [was_filtered]: whether the call came back without [ValueError]. *)
Definition was_filtered (func : unit -> unit -> UnsafeIndex -> Filtered (Outcome unit))
    (index : UnsafeIndex) : bool :=
  match func tt tt index with
  | Invoked (Raise ValueError) => false
  | _ => true
  end.

(** ** Controls *)

Inductive Color : Type :=
| ENABLED
| DISABLED
| RGB (rgb : Z).

(** References to control surface objects and to control matchers. *)
Definition ControlId := nat.
Definition MatcherId := nat.

(** The attributes of a [ControlSurface] that the matcher reads or writes:
    its value, its color, and whether it is an instance of [NullControl]. *)
Record ControlSurface : Type := mkControlSurface {
  cs_value : float;
  cs_color : Color;
  cs_is_null : bool
}.

(** [ControlEvent]: what [ControlSurface.match] returns on a match. *)
Record ControlEvent : Type := mkControlEvent {
  ce_control : ControlId;
  ce_value : float;
  ce_channel : Z;
  ce_double : bool
}.

(** The store: every control object, and the state of everything else that
    the host's methods keep (press times, the sub-matchers' own state). *)
Record Store (Ext : Type) : Type := mkStore {
  controls : ControlId -> ControlSurface;
  ext : Ext
}.

Arguments mkStore {Ext} controls ext.
Arguments controls {Ext} s _.
Arguments ext {Ext} s.

Definition update_control {Ext} (st : Store Ext) (c : ControlId)
    (f : ControlSurface -> ControlSurface) : Store Ext :=
  mkStore (fun c' => if Nat.eqb c' c then f (controls st c') else controls st c')
          (ext st).

(** [control.value = v] *)
Definition set_value {Ext} (c : ControlId) (v : float) (st : Store Ext) : Store Ext :=
  update_control st c (fun cs => mkControlSurface v (cs_color cs) (cs_is_null cs)).

(** [control.color = col] *)
Definition set_color {Ext} (c : ControlId) (col : Color) (st : Store Ext) : Store Ext :=
  update_control st c (fun cs => mkControlSurface (cs_value cs) col (cs_is_null cs)).

(** [control.value == 0] on a control event *)
Definition is_lift (control : ControlEvent) : bool :=
  PrimFloat.eqb (ce_value control) 0%float.

(** ** The host: methods of classes outside the embedding *)

(** [ControlSurface_match c e st] is [c.match(e)]: [None] when the pattern
    of the control does not match the event (the store is left as it is),
    otherwise the control event and the store after the control has
    recorded the event. [IControlMatcher_matchEvent] and
    [IControlMatcher_tick] are the methods of the main matcher and of the
    views' sub-matchers; [ControlSurface_doTick] is [c.doTick(thorough)]. *)
Class Host : Type := mkHost {
  Event : Type;
  Ext : Type;
  ControlSurface_match :
    ControlId -> Event -> Store Ext -> option (ControlEvent * Store Ext);
  ControlSurface_doTick :
    ControlId -> bool -> Store Ext -> Store Ext;
  IControlMatcher_matchEvent :
    MatcherId -> Event -> Store Ext -> option ControlEvent * Store Ext;
  IControlMatcher_tick :
    MatcherId -> bool -> Store Ext -> Store Ext
}.

(** ** ShiftView *)

(** A [ShiftView] object never changes after its construction; [view_id]
    tells apart two objects built with the same arguments, so that the
    identity test [is] is equality of records. *)
Record ShiftView : Type := mkShiftView {
  view_id : nat;
  trigger : ControlId;
  view : MatcherId;
  ignore_single_press : bool;
  disable_in_other_views : bool;
  allow_fallback_match : bool;
  debug : bool
}.

(** [a is b] on views *)
Definition ShiftView_is (a b : ShiftView) : bool :=
  Nat.eqb (view_id a) (view_id b)
  && Nat.eqb (trigger a) (trigger b)
  && Nat.eqb (view a) (view b)
  && Bool.eqb (ignore_single_press a) (ignore_single_press b)
  && Bool.eqb (disable_in_other_views a) (disable_in_other_views b)
  && Bool.eqb (allow_fallback_match a) (allow_fallback_match b)
  && Bool.eqb (debug a) (debug b).

(** ** ShiftMatcher *)

Record ShiftMatcher : Type := mkShiftMatcher {
  null : ControlId;
  main : MatcherId;
  views : list ShiftView;
  active_view : option ShiftView;
  sustained : bool;
  changed : bool
}.

(** [ShiftMatcher.__init__] *)
Definition ShiftMatcher_init (null_control : ControlId) (main_view : MatcherId)
    (views : list ShiftView) : ShiftMatcher :=
  mkShiftMatcher null_control main_view views None false true.

Definition set_active_view (a : option ShiftView) (s : ShiftMatcher) : ShiftMatcher :=
  mkShiftMatcher (null s) (main s) (views s) a (sustained s) (changed s).

Definition set_sustained (b : bool) (s : ShiftMatcher) : ShiftMatcher :=
  mkShiftMatcher (null s) (main s) (views s) (active_view s) b (changed s).

Definition set_changed (b : bool) (s : ShiftMatcher) : ShiftMatcher :=
  mkShiftMatcher (null s) (main s) (views s) (active_view s) (sustained s) b.

(** [self.__active_view is view] *)
Definition active_is (s : ShiftMatcher) (v : ShiftView) : bool :=
  match active_view s with
  | Some a => ShiftView_is a v
  | None => false
  end.

(** [self.__active_view is not None] *)
Definition has_active (s : ShiftMatcher) : bool :=
  match active_view s with Some _ => true | None => false end.

(** The guard of [matchEvent]'s loop: the view is passed over. *)
Definition skip_view (s : ShiftMatcher) (v : ShiftView) : bool :=
  has_active s && negb (active_is s v) && disable_in_other_views v.

(** The guard of [tick]'s loop. *)
Definition skip_tick (s : ShiftMatcher) (v : ShiftView) : bool :=
  negb (active_is s v) && disable_in_other_views v.

(** The loop variable [view] once the loop has run to its end: the last
    element of the list, unbound when the list is empty. *)
Fixpoint loop_variable (vs : list ShiftView) : option ShiftView :=
  match vs with
  | [] => None
  | [v] => Some v
  | _ :: rest => loop_variable rest
  end.

Section MatchEvent.
Context `{H : Host}.

(** What a call of [matchEvent] leaves behind. *)
Record Step : Type := mkStep {
  result : Outcome (option ControlEvent);
  matcher : ShiftMatcher;
  world : Store Ext
}.

(** Lines 145-149: open the menu. *)
Definition open_view (s : ShiftMatcher) (v : ShiftView)
    (control : ControlEvent) (st : Store Ext) : Step :=
  mkStep (Return (Some control))
         (set_changed true (set_active_view (Some v) s))
         (set_color (trigger v) ENABLED st).

(** Lines 118-149: the body of the loop for a view whose trigger matched
    the event; [st] is the store after [view.trigger.match(event)]. *)
Definition on_trigger (s : ShiftMatcher) (v : ShiftView) (event : Event)
    (control : ControlEvent) (st : Store Ext) : Step :=
  if is_lift control then
    if active_is s v then
      if sustained s then
        mkStep (Return (Some control))
               (set_sustained false s)
               (set_color (trigger v) ENABLED (set_value (trigger v) 1%float st))
      else
        mkStep (Return (Some control))
               (set_active_view None (set_changed true s))
               (set_color (trigger v) DISABLED st)
    else mkStep (Return (Some control)) s st
  else if active_is s v then
    match ControlSurface_match (null s) event st with
    | Some (m, st') => mkStep (Return (Some m)) s st'
    | None => mkStep (Return None) s st
    end
  else if ce_double control then
    open_view (set_sustained true s) v control st
  else if ignore_single_press v then
    mkStep (Return (Some control)) s st
  else
    open_view s v control st.

(** Lines 109-149: the loop over the views; [None] when the loop runs to
    its end without a [return]. *)
Fixpoint scan_views (s : ShiftMatcher) (event : Event) (st : Store Ext)
    (vs : list ShiftView) : option Step :=
  match vs with
  | [] => None
  | v :: rest =>
      if skip_view s v then scan_views s event st rest
      else
        match ControlSurface_match (trigger v) event st with
        | Some (control, st') => Some (on_trigger s v event control st')
        | None => scan_views s event st rest
        end
  end.

(** Lines 151-160: no trigger took the event. *)
Definition delegate (s : ShiftMatcher) (event : Event) (st : Store Ext) : Step :=
  match active_view s with
  | Some a =>
      match IControlMatcher_matchEvent (view a) event st with
      | (Some m, st') => mkStep (Return (Some m)) s st'
      | (None, st') =>
          match loop_variable (views s) with
          | None => mkStep (Raise UnboundLocalError) s st'
          | Some v =>
              if allow_fallback_match v then
                let (r, st'') := IControlMatcher_matchEvent (main s) event st' in
                mkStep (Return r) s st''
              else mkStep (Return None) s st'
          end
      end
  | None =>
      let (r, st') := IControlMatcher_matchEvent (main s) event st in
      mkStep (Return r) s st'
  end.

(** [ShiftMatcher.matchEvent] *)
Definition matchEvent (s : ShiftMatcher) (event : Event) (st : Store Ext) : Step :=
  match scan_views s event st (views s) with
  | Some r => r
  | None => delegate s event st
  end.

(** ** tick *)

(** The calls that [tick] makes on other objects, in order. *)
Inductive Call : Type :=
| DoTick (c : ControlId) (thorough : bool)
| TickMatcher (m : MatcherId) (thorough : bool).

(** Lines 178-185: colour and tick one trigger. *)
Definition tick_trigger (s : ShiftMatcher) (thorough : bool) (v : ShiftView)
    (st : Store Ext) : Store Ext :=
  let st1 :=
    if cs_is_null (controls st (trigger v)) then
      set_color (trigger v) (if active_is s v then ENABLED else DISABLED) st
    else st in
  ControlSurface_doTick (trigger v) thorough st1.

(** Lines 174-185: the loop over the views. *)
Fixpoint tick_views (s : ShiftMatcher) (thorough : bool) (vs : list ShiftView)
    (st : Store Ext) : Store Ext * list Call :=
  match vs with
  | [] => (st, [])
  | v :: rest =>
      if skip_tick s v then tick_views s thorough rest st
      else
        let (st', calls) := tick_views s thorough rest (tick_trigger s thorough v st) in
        (st', DoTick (trigger v) thorough :: calls)
  end.

(** The sub-matcher that lines 189-192 tick. *)
Definition ticked_matcher (s : ShiftMatcher) : MatcherId :=
  match active_view s with
  | None => main s
  | Some a => view a
  end.

(** [ShiftMatcher.tick]: the matcher and the store after the call, and
    the calls made. *)
Definition tick (s : ShiftMatcher) (thorough : bool) (st : Store Ext)
    : ShiftMatcher * Store Ext * list Call :=
  let thorough' := if changed s then true else thorough in
  let s' := if changed s then set_changed false s else s in
  let (st1, calls) := tick_views s' thorough' (views s') st in
  let m := ticked_matcher s' in
  (s', IControlMatcher_tick m thorough' st1, calls ++ [TickMatcher m thorough']).

(** ** Runs *)

Inductive Op : Type :=
| OpMatchEvent (event : Event)
| OpTick (thorough : bool).

Definition run_op (o : Op) (x : ShiftMatcher * Store Ext) : ShiftMatcher * Store Ext :=
  match o with
  | OpMatchEvent event =>
      let r := matchEvent (fst x) event (snd x) in (matcher r, world r)
  | OpTick thorough =>
      fst (tick (fst x) thorough (snd x))
  end.

(** The matcher and the store after a sequence of calls. *)
Fixpoint run (ops : list Op) (x : ShiftMatcher * Store Ext) : ShiftMatcher * Store Ext :=
  match ops with
  | [] => x
  | o :: rest => run rest (run_op o x)
  end.

End MatchEvent.

(** ** PedalStrategy *)

(** The class object passed as [t_ped]: the three pedal classes that the
    callback knows, the base class, and any other subclass of [Pedal]. *)
Inductive PedalType : Type :=
| SustainPedal
| SostenutoPedal
| SoftPedal
| Pedal
| OtherPedal (n : nat).

(** The pedal classes that [pedalCallback] knows. *)
Definition recognized (t_ped : PedalType) : bool :=
  match t_ped with
  | SustainPedal | SostenutoPedal | SoftPedal => true
  | _ => false
  end.

(** A plugin index is a tuple of integers. *)
Definition PluginIndex := list Z.

(** [plugins.setParamValue(value, param, *index)] *)
Record ParamWrite : Type := setParamValue {
  pw_value : float;
  pw_param : Z;
  pw_index : list Z
}.

Section PedalStrategy.
(** [isPluginVst] of [common.util.api_fixes] and the constants of
    [common.consts] and [control_surfaces.controls.pedal]. *)
Variable isPluginVst : PluginIndex -> bool.
Variables PARAM_CC_START SUSTAIN SOSTENUTO SOFT : Z.

(** [PedalStrategy.pedalCallback], for a strategy built with
    [raise_on_error]; [value] is [control.value]. The result is what the
    call returns or raises, with the parameter writes made on the way.
    The method sits behind the filter [toPluginIndex], which lets a call
    through on a tuple: [index] is the tuple. *)
Definition pedalCallback (raise_on_error : bool) (value : float)
    (index : PluginIndex) (t_ped : PedalType) : Outcome bool * list ParamWrite :=
  if negb (isPluginVst index) then
    if raise_on_error then (Raise TypeError, [])
    else (Return false, [])
  else
    match t_ped with
    | SustainPedal =>
        (Return true, [setParamValue value (PARAM_CC_START + SUSTAIN) index])
    | SostenutoPedal =>
        (Return true, [setParamValue value (PARAM_CC_START + SOSTENUTO) index])
    | SoftPedal =>
        (Return true, [setParamValue value (PARAM_CC_START + SOFT) index])
    | _ => (Raise NotImplementedError, [])
    end.

End PedalStrategy.

(** ** Properties of hosts and of configurations *)

(** [ControlSurface.match] records the event in the control and leaves the
    colors of all controls alone. *)
Definition match_keeps_colors `{Host} : Prop :=
  forall c event st control st',
    ControlSurface_match c event st = Some (control, st') ->
    forall c', cs_color (controls st' c') = cs_color (controls st c').

(** The event is taken by the trigger of [v]: [v] is in the list of views,
    it is not passed over, its trigger matches the event (leaving the store
    [st']), and every view before it is passed over or has a trigger that
    does not match (first matching view wins). *)
Definition claimed_by `{Host} (s : ShiftMatcher) (event : Event) (st : Store Ext)
    (v : ShiftView) (control : ControlEvent) (st' : Store Ext) : Prop :=
  exists before after,
    views s = before ++ v :: after
    /\ (forall w, In w before ->
          skip_view s w = true \/ ControlSurface_match (trigger w) event st = None)
    /\ skip_view s v = false
    /\ ControlSurface_match (trigger v) event st = Some (control, st').

(** The list of views without the object [w]. *)
Definition without (w : ShiftView) (vs : list ShiftView) : list ShiftView :=
  filter (fun x => negb (ShiftView_is w x)) vs.

(** The calls of [tick] that tick a sub-matcher. *)
Definition matcher_ticks (calls : list Call) : list Call :=
  filter (fun c => match c with TickMatcher _ _ => true | DoTick _ _ => false end) calls.

(** The invariant of the state of a [ShiftMatcher]. *)
Definition ShiftMatcher_inv (s : ShiftMatcher) : Prop :=
  (sustained s = true -> active_view s <> None)
  /\ (forall a, active_view s = Some a -> In a (views s)).

(** ** A small device *)

(** A decoded event: the control it comes from, its value, and whether the
    press is the second of a double press. *)
Record PadEvent : Type := mkPadEvent {
  ev_control : ControlId;
  ev_value : float;
  ev_double : bool
}.

(** Control 0 is a null control on a pattern that matches everything; any
    other control matches the events that come from it. *)
Definition pad_match (c : ControlId) (e : PadEvent) (st : Store unit)
    : option (ControlEvent * Store unit) :=
  if Nat.eqb c 0 || Nat.eqb c (ev_control e) then
    Some (mkControlEvent c (ev_value e) 0 (ev_double e), set_value c (ev_value e) st)
  else None.

(** Matcher 0 holds controls 10 and 11, matcher 1 control 11 and matcher 2
    control 12. *)
Definition pad_owner (m : MatcherId) (c : ControlId) : bool :=
  match m, c with
  | 0, 10 | 0, 11 | 1, 11 | 2, 12 => true
  | _, _ => false
  end.

Definition pad_matchEvent (m : MatcherId) (e : PadEvent) (st : Store unit)
    : option ControlEvent * Store unit :=
  if pad_owner m (ev_control e) then
    match pad_match (ev_control e) e st with
    | Some (control, st') => (Some control, st')
    | None => (None, st)
    end
  else (None, st).

#[export] Instance pad_host : Host :=
  mkHost pad_match (fun _ _ st => st) pad_matchEvent (fun _ _ st => st).

(** All controls at rest. *)
Definition pad_store : Store unit :=
  mkStore (fun c => mkControlSurface 0%float DISABLED (Nat.eqb c 0)) tt.

(** Three views: [view_a] on trigger 20 keeps the main layer out,
    [view_b] on trigger 21 and [view_c] on trigger 22 are disabled while
    another view is open, and [view_c] opens on a double press only. *)
Definition view_a : ShiftView := mkShiftView 1 20 1 false false false false.
Definition view_b : ShiftView := mkShiftView 2 21 2 false true true false.
Definition view_c : ShiftView := mkShiftView 3 22 2 true true true false.

Definition pad_matcher : ShiftMatcher :=
  ShiftMatcher_init 0 0 [view_a; view_b; view_c].

Definition press (c : ControlId) : PadEvent := mkPadEvent c 1%float false.
Definition double_press (c : ControlId) : PadEvent := mkPadEvent c 1%float true.
Definition lift (c : ControlId) : PadEvent := mkPadEvent c 0%float false.

(** The matcher and the store with [view_a] open. *)
Definition in_view_a : ShiftMatcher * Store unit :=
  run [OpMatchEvent (press 20)] (pad_matcher, pad_store).

(** The small device with [view_b] open and sustained, and a matcher on the
    two views that allow the fallback, with [view_b] open. *)
Definition in_view_b_sustained : ShiftMatcher * Store unit :=
  run [OpMatchEvent (double_press 21)] (pad_matcher, pad_store).

Definition in_view_b_of_two : ShiftMatcher * Store unit :=
  run [OpMatchEvent (press 21)] (ShiftMatcher_init 0 0 [view_b; view_c], pad_store).

(** A store in which every control is a [NullControl]. *)
Definition indicator_store : Store unit :=
  mkStore (fun _ => mkControlSurface 0%float DISABLED true) tt.

(** ** More of the matcher *)

(** [ShiftMatcher.getControls]; [IControlMatcher_getControls m] is what
    [m.getControls()] returns during the call. *)
Definition getControls (IControlMatcher_getControls : MatcherId -> list ControlId)
    (s : ShiftMatcher) : list ControlId :=
  fold_left
    (fun controls v =>
       (controls ++ [trigger v]) ++ IControlMatcher_getControls (view v))
    (views s)
    (IControlMatcher_getControls (main s)).

(** The [thorough] argument of a call made by [tick], and the same call
    with another argument. *)
Definition call_thorough (c : Call) : bool :=
  match c with
  | DoTick _ thorough => thorough
  | TickMatcher _ thorough => thorough
  end.

Definition with_thorough (thorough : bool) (c : Call) : Call :=
  match c with
  | DoTick t _ => DoTick t thorough
  | TickMatcher m _ => TickMatcher m thorough
  end.

(** The color that the loop of [tick] gives to the null trigger of a
    view. *)
Definition trigger_color (s : ShiftMatcher) (v : ShiftView) : Color :=
  if active_is s v then ENABLED else DISABLED.

(** [ControlSurface.doTick] changes neither the color of a control nor
    its class. *)
Definition doTick_keeps_looks `{Host} : Prop :=
  forall c thorough st c',
    cs_color (controls (ControlSurface_doTick c thorough st) c')
      = cs_color (controls st c')
    /\ cs_is_null (controls (ControlSurface_doTick c thorough st) c')
      = cs_is_null (controls st c').

(** ** Python values *)

(** Exceptions of the builtins, beside those above. *)
Inductive PyExn : Type :=
| Builtin (x : Exn)
| IndexError
| OverflowError.

Inductive Try (A : Type) : Type :=
| Ok (a : A)
| Fail (x : PyExn).

Arguments Ok {A} a.
Arguments Fail {A} x.

(** [int(f)] on a float: truncation towards zero; [OverflowError] on an
    infinity and [ValueError] on a NaN. *)
Definition int (f : float) : Try Z :=
  match Prim2SF f with
  | S754_zero _ => Ok 0%Z
  | S754_infinity _ => Fail OverflowError
  | S754_nan => Fail (Builtin ValueError)
  | S754_finite sign m e =>
      let magnitude :=
        if (0 <=? e)%Z then (Zpos m * 2 ^ e)%Z else (Zpos m / 2 ^ (- e))%Z in
      Ok (if sign then (- magnitude)%Z else magnitude)
  end.

(** [range(n)] *)
Definition range (n : nat) : list Z := map Z.of_nat (seq 0 n).

(** The position that [l[i]] reads in a list of length [len]: a negative
    index counts from the end; [None] is [IndexError]. *)
Definition py_index (len : nat) (i : Z) : option nat :=
  if ((0 <=? i) && (i <? Z.of_nat len))%Z then Some (Z.to_nat i)
  else if ((- Z.of_nat len <=? i) && (i <? 0))%Z then Some (Z.to_nat (Z.of_nat len + i))
  else None.

Fixpoint update_at {A : Type} (n : nat) (a : A) (l : list A) : list A :=
  match l, n with
  | [], _ => []
  | _ :: rest, O => a :: rest
  | x :: rest, S n' => x :: update_at n' a rest
  end.

(** ** The FPC plugin *)

(** The attributes of a note's control shadow that [FPC.tick] writes. *)
Record NoteShadow : Type := mkNoteShadow {
  ns_color : Color;
  ns_annotation : String.string
}.

(** [channels.midiNoteOn] on its positional arguments *)
Inductive ChannelCall : Type :=
| midiNoteOn (args : list Z).

Section FPC.
(** [plugins.getPadInfo] and [plugins.getName] on their positional
    arguments, and [Color()] and [Color.fromInteger] of [common.types]. *)
Variable getPadInfo : list Z -> Z.
Variable getName : list Z -> String.string.
Variable Color_default : Color.
Variable Color_fromInteger : Z -> Color.

(** [colorPad] *)
Definition colorPad (ch_idx : UnsafeIndex) (pad_idx : Z) : Try Color :=
  if negb (is_tuple ch_idx) then Ok Color_default
  else
    match ch_idx with
    | ITuple (chan :: _) =>
        Ok (Color_fromInteger (getPadInfo [chan; (-1)%Z; 2%Z; pad_idx]))
    | _ => Fail IndexError
    end.

(** The note that [triggerPad] plays for the note number that the plugin
    reports. *)
Definition pad_note (note : Z) : Z :=
  if (127 <? note)%Z then Z.shiftr note 16 else note.

(** [triggerPad]; [value] is [control.value], [ch_idx] the generator
    index behind the filter. The result is what the call returns or
    raises, with the notes sent. *)
Definition triggerPad (value : float) (ch_idx : list Z) (pad_idx : Z)
    : Try bool * list ChannelCall :=
  let note := getPadInfo (ch_idx ++ [(-1)%Z; 1%Z; pad_idx]) in
  let note := pad_note note in
  match int (value * 127)%float with
  | Ok velocity => (Ok true, [midiNoteOn (ch_idx ++ [note; velocity])])
  | Fail x => (Fail x, [])
  end.

(** [self._notes[i].color = color; self._notes[i].annotation = annotation] *)
Definition set_note (notes : list NoteShadow) (i : Z) (color : Color)
    (annotation : String.string) : Try (list NoteShadow) :=
  match py_index (length notes) i with
  | Some n => Ok (update_at n (mkNoteShadow color annotation) notes)
  | None => Fail IndexError
  end.

(** What the first loop of [FPC.tick] writes for a pad. *)
Definition pad_number (index : list Z) (idx : Z) : Z :=
  getPadInfo (index ++ [(-1)%Z; 1%Z; idx]).

Definition pad_shadow (index : list Z) (idx : Z) : NoteShadow :=
  mkNoteShadow
    (Color_fromInteger (getPadInfo (index ++ [(-1)%Z; 2%Z; idx])))
    (getName (index ++ [(-1)%Z; 2%Z; pad_number index idx])).

(** The first loop of [FPC.tick], over the pads; [seen] is the set
    [notes]. The shadows are returned as the loop leaves them, also when it
    raises. *)
Fixpoint tick_pads (index : list Z) (pads : list Z) (notes : list NoteShadow)
    (seen : list Z) : list NoteShadow * Try (list Z) :=
  match pads with
  | [] => (notes, Ok seen)
  | idx :: rest =>
      let note := pad_number index idx in
      match set_note notes note (ns_color (pad_shadow index idx))
                     (ns_annotation (pad_shadow index idx)) with
      | Ok notes' => tick_pads index rest notes' (note :: seen)
      | Fail x => (notes, Fail x)
      end
  end.

(** The second loop of [FPC.tick], over the note numbers. *)
Fixpoint tick_others (numbers : list Z) (seen : list Z) (notes : list NoteShadow)
    : list NoteShadow * Try unit :=
  match numbers with
  | [] => (notes, Ok tt)
  | i :: rest =>
      if existsb (Z.eqb i) seen then tick_others rest seen notes
      else
        match set_note notes i Color_default String.EmptyString with
        | Ok notes' => tick_others rest seen notes'
        | Fail x => (notes, Fail x)
        end
  end.

(** [FPC.tick] on the generator index behind the filter; [notes] is
    [self._notes]. *)
Definition FPC_tick (index : list Z) (notes : list NoteShadow)
    : list NoteShadow * Try unit :=
  match tick_pads index (range 32) notes [] with
  | (notes1, Ok seen) => tick_others (range 128) seen notes1
  | (notes1, Fail x) => (notes1, Fail x)
  end.

(** The last of the 32 pads that reports the note number [i]. *)
Definition last_pad (index : list Z) (i : Z) : option Z :=
  find (fun idx => Z.eqb (pad_number index idx) i) (rev (range 32)).

End FPC.

(** ** SimpleFaders *)

(** The attributes of a fader's control shadow that [tFaders] writes. *)
Record FaderShadow : Type := mkFaderShadow {
  fs_value : float;
  fs_annotation : String.string
}.

Section SimpleFaders.
(** [plugins.getParamValue] and [plugins.getParamName] on their positional
    arguments. *)
Variable getParamValue : list Z -> float.
Variable getParamName : list Z -> String.string.

(** [SimpleFaders.eFaders]: the value returned and the parameter write. *)
Definition eFaders (value : float) (index : PluginIndex) (param_index : Z)
    : bool * list ParamWrite :=
  (true, [setParamValue value param_index index]).

(** [SimpleFaders.tFaders]: the counter [self.__ticker] and the control
    after the call. *)
Definition tFaders (ticker : Z) (control : FaderShadow) (index : PluginIndex)
    (param_index : Z) : Z * FaderShadow :=
  let ticker := (ticker + 1)%Z in
  let ticker := (ticker mod 10)%Z in
  let value :=
    if (ticker =? 0)%Z then getParamValue (param_index :: index)
    else fs_value control in
  (ticker, mkFaderShadow value (getParamName (param_index :: index))).

(** A sequence of [tFaders] calls on one strategy, each on its own control
    and parameter: the counter after the last call and the controls after
    their calls. *)
Fixpoint tFaders_calls (ticker : Z) (calls : list (FaderShadow * PluginIndex * Z))
    : Z * list FaderShadow :=
  match calls with
  | [] => (ticker, [])
  | (control, index, param_index) :: rest =>
      let (ticker', control') := tFaders ticker control index param_index in
      let (final, controls') := tFaders_calls ticker' rest in
      (final, control' :: controls')
  end.

End SimpleFaders.

(** A plugin for the examples: pad [idx] plays note [idx + 36] in color
    [idx]; [shifted_pads] reports the numbers in the upper half-word. *)
Definition drum_pads (args : list Z) : Z :=
  match args with
  | [_; _; 1%Z; idx] => (idx + 36)%Z
  | [_; _; _; idx] => idx
  | _ => 0%Z
  end.

Definition shifted_pads (args : list Z) : Z := (drum_pads args * 65536)%Z.

Definition blank_notes : list NoteShadow :=
  repeat (mkNoteShadow DISABLED String.EmptyString) 128.

(** * Index filters *)

Lemma toGeneratorIndex_shape (index : UnsafeIndex) :
  toGeneratorIndex index = true <-> exists a, index = ITuple [a].
Proof.
  split.
  - destruct index as [ | n | [ | a [ | b t]]]; try discriminate.
    intros _. now exists a.
  - intros [a ->]. reflexivity.
Qed.

Lemma toEffectIndex_shape (index : UnsafeIndex) :
  toEffectIndex index = true <-> exists a b, index = ITuple [a; b].
Proof.
  split.
  - destruct index as [ | n | [ | a [ | b [ | c t]]]]; try discriminate.
    intros _. now exists a, b.
  - intros (a & b & ->). reflexivity.
Qed.

Lemma do_filter_invoked {S C R : Type} (predicate : UnsafeIndex -> bool)
    (func : S -> C -> UnsafeIndex -> R) self control index :
  (predicate index = true
   /\ do_filter predicate func self control index = Invoked (func self control index))
  \/ (predicate index = false
      /\ do_filter predicate func self control index = Skipped).
Proof.
  unfold do_filter. destruct (predicate index); [left | right]; split; reflexivity.
Qed.

(** C10. Each index filter holds exactly for its documented shape: a tuple
    for [toPluginIndex], a tuple of length 1 for [toGeneratorIndex], a tuple
    of length 2 for [toEffectIndex], an integer for [toWindowIndex],
    anything but [None] for [toSafeIndex]; and a callback behind a filter is
    invoked exactly when the predicate holds for the index, with the index
    it was called on. *)
Theorem index_filters_shapes :
  forall index : UnsafeIndex,
    (toPluginIndex index = true <-> exists t, index = ITuple t)
    /\ (toGeneratorIndex index = true <-> exists t, index = ITuple t /\ length t = 1)
    /\ (toEffectIndex index = true <-> exists t, index = ITuple t /\ length t = 2)
    /\ (toWindowIndex index = true <-> exists n, index = IInt n)
    /\ (toSafeIndex index = true <-> index <> INone)
    /\ (forall (S C R : Type) (predicate : UnsafeIndex -> bool)
               (func : S -> C -> UnsafeIndex -> R) self control,
          ((exists r, do_filter predicate func self control index = Invoked r)
           <-> predicate index = true)
          /\ (forall r, do_filter predicate func self control index = Invoked r ->
                r = func self control index)).
Proof.
  intros index. repeat split.
  - destruct index; try discriminate. intros _. now exists t.
  - intros [t ->]. reflexivity.
  - intros Hg. apply toGeneratorIndex_shape in Hg as [a ->]. now exists [a].
  - intros (t & -> & Hlen). destruct t as [ | a [ | b t]]; try discriminate.
    reflexivity.
  - intros He. apply toEffectIndex_shape in He as (a & b & ->). now exists [a; b].
  - intros (t & -> & Hlen). destruct t as [ | a [ | b [ | c t]]]; try discriminate.
    reflexivity.
  - destruct index; try discriminate. intros _. now exists n.
  - intros [n ->]. reflexivity.
  - destruct index; try discriminate; intros _; discriminate.
  - destruct index; try reflexivity. intros Hn. now elim Hn.
  - intros [r Hr].
    destruct (do_filter_invoked predicate func self control index) as [[Hp _] | [_ Hs]];
      [exact Hp | rewrite Hs in Hr; discriminate].
  - intros Hp. exists (func self control index).
    unfold do_filter. now rewrite Hp.
  - intros r Hr.
    destruct (do_filter_invoked predicate func self control index) as [[_ Hi] | [_ Hs]];
      rewrite Hr in *; [now injection Hi | discriminate].
Qed.

(** The cases of [tests/filter_test.py]. *)
Lemma filter_test_cases :
  let none := INone in
  let window := IInt 0 in
  let generator := ITuple [1%Z] in
  let effect := ITuple [1%Z; 2%Z] in
  map (was_filtered (get_function toPluginIndex)) [none; window; generator; effect]
    = [true; true; false; false]
  /\ map (was_filtered (get_function toGeneratorIndex)) [none; window; effect; generator]
    = [true; true; true; false]
  /\ map (was_filtered (get_function toEffectIndex)) [none; window; generator; effect]
    = [true; true; true; false]
  /\ map (was_filtered (get_function toWindowIndex)) [none; generator; effect; window]
    = [true; true; true; false]
  /\ map (was_filtered (get_function toSafeIndex)) [none; window; generator; effect]
    = [true; false; false; false].
Proof. repeat split. Qed.

(** * PedalStrategy *)

(** C9. On an index that is not a VST, [pedalCallback] raises [TypeError]
    when the strategy was built with [raise_on_error] and returns [False]
    otherwise, and writes no parameter. On a VST index, a sustain,
    sostenuto or soft pedal makes exactly one parameter write, of the
    control's value on that plugin, and the call returns [True]; any other
    pedal type raises [NotImplementedError]. *)
Theorem pedalCallback_cases :
  forall (isPluginVst : PluginIndex -> bool) (PARAM_CC_START SUSTAIN SOSTENUTO SOFT : Z)
         (raise_on_error : bool) (value : float) (index : PluginIndex)
         (t_ped : PedalType),
    let call := pedalCallback isPluginVst PARAM_CC_START SUSTAIN SOSTENUTO SOFT
                              raise_on_error value index t_ped in
    (isPluginVst index = false ->
       call = (if raise_on_error then Raise TypeError else Return false, []))
    /\ (isPluginVst index = true -> recognized t_ped = true ->
          exists cc,
            In cc [SUSTAIN; SOSTENUTO; SOFT]
            /\ call = (Return true,
                       [setParamValue value (PARAM_CC_START + cc) index]))
    /\ (isPluginVst index = true -> recognized t_ped = false ->
          call = (Raise NotImplementedError, [])).
Proof.
  intros isPluginVst P S1 S2 S3 raise_on_error value index t_ped call.
  unfold call, pedalCallback. repeat split.
  - intros ->. now destruct raise_on_error.
  - intros -> Hrec. destruct t_ped; try discriminate;
      [exists S1 | exists S2 | exists S3]; simpl; auto.
  - intros -> Hrec. destruct t_ped; try discriminate; reflexivity.
Qed.

(** [pedalCallback_cases] on the pedals of a generator and of an effect,
    where only effects are VSTs. *)
Lemma pedalCallback_cases_witness :
  let isVst := fun index : PluginIndex => Nat.eqb (length index) 2 in
  (pedalCallback isVst 4096 64 66 67 true 1%float [3%Z] SustainPedal
     = (Raise TypeError, []))
  /\ (exists cc,
        In cc [64%Z; 66%Z; 67%Z]
        /\ pedalCallback isVst 4096 64 66 67 true 1%float [3%Z; 0%Z] SustainPedal
           = (Return true, [setParamValue 1%float (4096 + cc) [3%Z; 0%Z]]))
  /\ pedalCallback isVst 4096 64 66 67 true 1%float [3%Z; 0%Z] Pedal
     = (Raise NotImplementedError, []).
Proof.
  split; [ | split].
  - apply (pedalCallback_cases (fun index => Nat.eqb (length index) 2)
             4096 64 66 67 true 1%float [3%Z] SustainPedal). reflexivity.
  - apply (pedalCallback_cases (fun index => Nat.eqb (length index) 2)
             4096 64 66 67 true 1%float [3%Z; 0%Z] SustainPedal); reflexivity.
  - apply (pedalCallback_cases (fun index => Nat.eqb (length index) 2)
             4096 64 66 67 true 1%float [3%Z; 0%Z] Pedal); reflexivity.
Defined.

(** * ShiftMatcher *)

Lemma ShiftView_is_eq (a b : ShiftView) : ShiftView_is a b = true <-> a = b.
Proof.
  unfold ShiftView_is. split.
  - intros Hab.
    repeat (apply andb_true_iff in Hab as [Hab ?]).
    destruct a, b; simpl in *.
    repeat match goal with
           | E : Nat.eqb _ _ = true |- _ => apply Nat.eqb_eq in E
           | E : Bool.eqb _ _ = true |- _ => apply Bool.eqb_prop in E
           end.
    congruence.
  - intros ->. now rewrite !Nat.eqb_refl, !Bool.eqb_reflx.
Qed.

Lemma ShiftView_is_refl (a : ShiftView) : ShiftView_is a a = true.
Proof. now apply ShiftView_is_eq. Qed.

Lemma ShiftView_is_neq (a b : ShiftView) : a <> b -> ShiftView_is a b = false.
Proof.
  intros Hab. destruct (ShiftView_is a b) eqn:E; [ | reflexivity].
  now apply ShiftView_is_eq in E.
Qed.

Lemma active_is_eq (s : ShiftMatcher) (v : ShiftView) :
  active_is s v = true <-> active_view s = Some v.
Proof.
  unfold active_is. destruct (active_view s) as [a | ].
  - rewrite ShiftView_is_eq. split; congruence.
  - split; discriminate.
Qed.

Section ShiftMatcherFacts.
Context `{H : Host}.

(** The loop hands the event to the first view that is not passed over and
    whose trigger matches. *)
Lemma scan_views_claimed s event st before v after control st' :
  (forall w, In w before ->
     skip_view s w = true \/ ControlSurface_match (trigger w) event st = None) ->
  skip_view s v = false ->
  ControlSurface_match (trigger v) event st = Some (control, st') ->
  scan_views s event st (before ++ v :: after)
    = Some (on_trigger s v event control st').
Proof.
  intros Hbefore Hskip Hmatch.
  induction before as [ | w before IH]; simpl.
  - now rewrite Hskip, Hmatch.
  - destruct (Hbefore w (or_introl eq_refl)) as [Hw | Hw]; rewrite Hw.
    + apply IH. intros x Hx. apply Hbefore. now right.
    + destruct (skip_view s w); apply IH; intros x Hx; apply Hbefore; now right.
Qed.

Lemma matchEvent_claimed s event st v control st' :
  claimed_by s event st v control st' ->
  matchEvent s event st = on_trigger s v event control st'.
Proof.
  intros (before & after & Hviews & Hbefore & Hskip & Hmatch).
  unfold matchEvent. rewrite Hviews.
  now rewrite (scan_views_claimed s event st before v after Hbefore Hskip Hmatch).
Qed.

(** Where a view occurs first in a list. *)
Lemma first_occurrence (v : ShiftView) (vs : list ShiftView) :
  In v vs -> exists before after, vs = before ++ v :: after /\ ~ In v before.
Proof.
  induction vs as [ | x vs IH]; [contradiction | ].
  destruct (ShiftView_is x v) eqn:Hxv.
  - apply ShiftView_is_eq in Hxv as ->. intros _. now exists [], vs.
  - intros [-> | Hin]; [now rewrite ShiftView_is_refl in Hxv | ].
    destruct (IH Hin) as (before & after & -> & Hnot).
    exists (x :: before), after. split; [reflexivity | ].
    intros [-> | Hb]; [now rewrite ShiftView_is_refl in Hxv | now apply Hnot].
Qed.

(** In a configuration where no other view's trigger matches the event (no
    two triggers overlap on it), the event is taken by the view whose
    trigger matches, unless that view is passed over. *)
Lemma claimed_by_disjoint s event st v control st' :
  In v (views s) ->
  skip_view s v = false ->
  ControlSurface_match (trigger v) event st = Some (control, st') ->
  (forall w, In w (views s) -> w <> v ->
     ControlSurface_match (trigger w) event st = None) ->
  claimed_by s event st v control st'.
Proof.
  intros Hin Hskip Hmatch Hothers.
  destruct (first_occurrence v (views s) Hin) as (before & after & Hviews & Hnot).
  exists before, after. repeat split; auto.
  intros w Hw. right. apply Hothers.
  - rewrite Hviews. apply in_app_iff. now left.
  - intros ->. now apply Hnot.
Qed.

(** Whatever the loop returns comes from [on_trigger] on a view of the list
    that was not passed over. *)
Lemma scan_views_some s event st vs r :
  scan_views s event st vs = Some r ->
  exists v control st',
    In v vs /\ skip_view s v = false
    /\ ControlSurface_match (trigger v) event st = Some (control, st')
    /\ r = on_trigger s v event control st'.
Proof.
  induction vs as [ | w vs IH]; simpl; [discriminate | ].
  destruct (skip_view s w) eqn:Hskip.
  - intros Hr. destruct (IH Hr) as (v & c & st' & Hin & Hrest).
    exists v, c, st'. split; [now right | exact Hrest].
  - destruct (ControlSurface_match (trigger w) event st) as [[c st'] | ] eqn:Hm.
    + intros [= <-]. exists w, c, st'. repeat split; auto.
    + intros Hr. destruct (IH Hr) as (v & c & st' & Hin & Hrest).
      exists v, c, st'. split; [now right | exact Hrest].
Qed.

(** [delegate] leaves the matcher as it is. *)
Lemma delegate_matcher s event st : matcher (delegate s event st) = s.
Proof.
  unfold delegate. destruct (active_view s) as [a | ].
  - destruct (IControlMatcher_matchEvent (view a) event st) as [[m | ] st']; [reflexivity | ].
    destruct (loop_variable (views s)) as [v | ]; [ | reflexivity].
    destruct (allow_fallback_match v); [ | reflexivity].
    now destruct (IControlMatcher_matchEvent (main s) event st').
  - now destruct (IControlMatcher_matchEvent (main s) event st).
Qed.

(** The matcher after [on_trigger]: one of five. *)
Lemma on_trigger_matcher s v event control st :
  let s' := matcher (on_trigger s v event control st) in
  s' = s
  \/ (s' = set_sustained false s /\ active_is s v = true)
  \/ (s' = set_active_view None (set_changed true s) /\ sustained s = false)
  \/ s' = set_changed true (set_active_view (Some v) (set_sustained true s))
  \/ s' = set_changed true (set_active_view (Some v) s).
Proof.
  unfold on_trigger, open_view.
  destruct (is_lift control).
  - destruct (active_is s v) eqn:Ha; [ | now left].
    destruct (sustained s) eqn:Hs; simpl; auto.
  - destruct (active_is s v).
    + destruct (ControlSurface_match (null s) event st) as [[m st'] | ]; now left.
    + destruct (ce_double control); simpl; auto.
      destruct (ignore_single_press v); simpl; auto.
Qed.

Lemma matchEvent_views s event st : views (matcher (matchEvent s event st)) = views s.
Proof.
  unfold matchEvent. destruct (scan_views s event st (views s)) as [r | ] eqn:Hscan.
  - apply scan_views_some in Hscan as (v & c & st' & _ & _ & _ & ->).
    destruct (on_trigger_matcher s v event c st') as [E | [[E _] | [[E _] | [E | E]]]];
      rewrite E; reflexivity.
  - now rewrite delegate_matcher.
Qed.

Lemma tick_matcher s thorough st :
  fst (fst (tick s thorough st)) = (if changed s then set_changed false s else s).
Proof.
  unfold tick. now destruct (tick_views _ _ _ st).
Qed.

Lemma tick_calls s thorough st :
  snd (tick s thorough st)
  = snd (tick_views (if changed s then set_changed false s else s)
                    (if changed s then true else thorough) (views s) st)
    ++ [TickMatcher (ticked_matcher s) (if changed s then true else thorough)].
Proof.
  unfold tick.
  replace (views (if changed s then set_changed false s else s)) with (views s)
    by now destruct (changed s).
  replace (ticked_matcher (if changed s then set_changed false s else s))
    with (ticked_matcher s) by now destruct (changed s).
  now destruct (tick_views _ _ _ st).
Qed.

(** The loop of [tick] calls [doTick] on the triggers of the views that
    are not passed over, in order, and makes no other call. *)
Lemma tick_views_calls s thorough vs st :
  snd (tick_views s thorough vs st)
  = map (fun v => DoTick (trigger v) thorough)
        (filter (fun v => negb (skip_tick s v)) vs).
Proof.
  revert st. induction vs as [ | v vs IH]; intros st; simpl; [reflexivity | ].
  destruct (skip_tick s v); simpl.
  - apply IH.
  - specialize (IH (tick_trigger s thorough v st)).
    destruct (tick_views s thorough vs (tick_trigger s thorough v st)).
    simpl in *. now rewrite IH.
Qed.

End ShiftMatcherFacts.

(** ** The four steps on a trigger *)

Section Steps.
Context `{H : Host}.
Variables (s : ShiftMatcher) (st : Store Ext) (v : ShiftView).
Variables (event : Event) (control : ControlEvent) (st' : Store Ext).
Hypothesis Hclaim : claimed_by s event st v control st'.

(** A press that is not a lift, of a view that is not open: the view is
    opened, sustained on a double press. *)
Lemma step_double_press :
  active_is s v = false -> is_lift control = false -> ce_double control = true ->
  matchEvent s event st = open_view (set_sustained true s) v control st'.
Proof.
  intros Hclosed Hpress Hdouble. rewrite (matchEvent_claimed Hclaim).
  unfold on_trigger. now rewrite Hpress, Hclosed, Hdouble.
Qed.

Lemma step_single_press :
  active_is s v = false -> is_lift control = false -> ce_double control = false ->
  matchEvent s event st
  = if ignore_single_press v then mkStep (Return (Some control)) s st'
    else open_view s v control st'.
Proof.
  intros Hclosed Hpress Hsingle. rewrite (matchEvent_claimed Hclaim).
  unfold on_trigger. now rewrite Hpress, Hclosed, Hsingle.
Qed.

(** A press of the trigger of the open view. *)
Lemma step_press_in_open_view :
  active_view s = Some v -> is_lift control = false ->
  result (matchEvent s event st)
    = Return (option_map fst (ControlSurface_match (null s) event st'))
  /\ matcher (matchEvent s event st) = s.
Proof.
  intros Hactive Hpress. rewrite (matchEvent_claimed Hclaim). unfold on_trigger.
  apply active_is_eq in Hactive. rewrite Hpress, Hactive.
  now destruct (ControlSurface_match (null s) event st') as [[m st''] | ].
Qed.

(** A lift of the trigger of the open view, sustained or not. *)
Lemma step_lift_sustained :
  active_view s = Some v -> sustained s = true -> is_lift control = true ->
  matchEvent s event st
  = mkStep (Return (Some control)) (set_sustained false s)
           (set_color (trigger v) ENABLED (set_value (trigger v) 1%float st')).
Proof.
  intros Hactive Hsus Hlift. rewrite (matchEvent_claimed Hclaim). unfold on_trigger.
  apply active_is_eq in Hactive. now rewrite Hlift, Hactive, Hsus.
Qed.

Lemma step_lift_closes :
  active_view s = Some v -> sustained s = false -> is_lift control = true ->
  matchEvent s event st
  = mkStep (Return (Some control)) (set_active_view None (set_changed true s))
           (set_color (trigger v) DISABLED st').
Proof.
  intros Hactive Hsus Hlift. rewrite (matchEvent_claimed Hclaim). unfold on_trigger.
  apply active_is_eq in Hactive. now rewrite Hlift, Hactive, Hsus.
Qed.

End Steps.

(** ** Press and lift *)

(** C3. From a matcher with no active view and the sustained flag down, a
    single press taken by the trigger of a view [v] that does not ignore
    single presses returns the trigger's match and makes [v] the active
    view; a lift of the trigger after that returns the lift and leaves the
    matcher with no active view. *)
Theorem press_lift_round_trip `{Host} :
  forall (s : ShiftMatcher) (st : Store Ext) (v : ShiftView)
         (e1 : Event) (pressed : ControlEvent) (st1 : Store Ext),
    active_view s = None ->
    sustained s = false ->
    ignore_single_press v = false ->
    claimed_by s e1 st v pressed st1 ->
    is_lift pressed = false ->
    ce_double pressed = false ->
    let r1 := matchEvent s e1 st in
    result r1 = Return (Some pressed)
    /\ active_view (matcher r1) = Some v
    /\ sustained (matcher r1) = false
    /\ forall (e2 : Event) (lifted : ControlEvent) (st2 : Store Ext),
         claimed_by (matcher r1) e2 (world r1) v lifted st2 ->
         is_lift lifted = true ->
         let r2 := matchEvent (matcher r1) e2 (world r1) in
         result r2 = Return (Some lifted)
         /\ active_view (matcher r2) = None
         /\ sustained (matcher r2) = false.
Proof.
  intros s st v e1 pressed st1 Hidle Hsus Hsingle Hclaim Hpress Hdouble r1.
  assert (Er1 : r1 = open_view s v pressed st1).
  { unfold r1. rewrite (matchEvent_claimed Hclaim). unfold on_trigger.
    rewrite Hpress. unfold active_is. rewrite Hidle.
    now rewrite Hdouble, Hsingle. }
  rewrite Er1. simpl.
  split; [reflexivity | split; [reflexivity | split; [exact Hsus | ]]].
  intros e2 lifted st2 Hclaim2 Hlift.
  rewrite (matchEvent_claimed Hclaim2). unfold on_trigger. rewrite Hlift.
  unfold active_is. simpl. rewrite ShiftView_is_refl, Hsus. simpl.
  repeat split. exact Hsus.
Qed.

(** Proves [claimed_by] on a concrete matcher, store and event, given the
    views before and after the one that takes the event. *)
Ltac take_event before after :=
  exists before, after;
  split; [reflexivity | ];
  split; [ intros w Hw; simpl in Hw;
           repeat (destruct Hw as [<- | Hw];
                   [first [left; reflexivity | right; reflexivity] | ]);
           contradiction
         | split; reflexivity ].

(** [press_lift_round_trip] on trigger 20 of the small device. *)
Lemma press_lift_round_trip_witness :
  let r1 := matchEvent pad_matcher (press 20) pad_store in
  let r2 := matchEvent (matcher r1) (lift 20) (world r1) in
  active_view (matcher r1) = Some view_a /\ active_view (matcher r2) = None.
Proof.
  destruct (@press_lift_round_trip pad_host pad_matcher pad_store view_a (press 20)
              (mkControlEvent 20 1%float 0 false) (set_value 20 1%float pad_store))
    as (_ & Hopen & _ & Hclose);
    [reflexivity | reflexivity | reflexivity
     | take_event (@nil ShiftView) [view_b; view_c] | reflexivity | reflexivity | ].
  split; [exact Hopen | ].
  apply (Hclose (lift 20) (mkControlEvent 20 0%float 0 false)
           (set_value 20 0%float
              (world (@matchEvent pad_host pad_matcher (press 20) pad_store)))).
  - take_event (@nil ShiftView) [view_b; view_c].
  - reflexivity.
Defined.

(** C7. While [v] is the active view, an event taken by the trigger of [v]
    that is not a lift is answered with the match of the null control,
    and the matcher is left as it was: same active view, same flags. *)
Theorem press_in_open_view_is_swallowed `{Host} :
  forall (s : ShiftMatcher) (st : Store Ext) (v : ShiftView)
         (event : Event) (pressed : ControlEvent) (st1 : Store Ext),
    active_view s = Some v ->
    claimed_by s event st v pressed st1 ->
    is_lift pressed = false ->
    let r := matchEvent s event st in
    result r = Return (option_map fst (ControlSurface_match (null s) event st1))
    /\ matcher r = s
    /\ active_view (matcher r) = Some v
    /\ sustained (matcher r) = sustained s.
Proof.
  intros s st v event pressed st1 Hactive Hclaim Hpress r.
  unfold r. rewrite (matchEvent_claimed Hclaim). unfold on_trigger.
  rewrite Hpress. apply active_is_eq in Hactive as Hav. rewrite Hav.
  destruct (ControlSurface_match (null s) event st1) as [[m st'] | ]; simpl; auto.
Qed.

(** [press_in_open_view_is_swallowed] on trigger 20 while its view is open. *)
Lemma press_in_open_view_is_swallowed_witness :
  let r := matchEvent (fst in_view_a) (press 20) (snd in_view_a) in
  result r = Return (Some (mkControlEvent 0 1%float 0 false))
  /\ matcher r = fst in_view_a.
Proof.
  destruct (@press_in_open_view_is_swallowed pad_host (fst in_view_a) (snd in_view_a)
              view_a (press 20) (mkControlEvent 20 1%float 0 false)
              (set_value 20 1%float (snd in_view_a)))
    as (Hres & Hsame & _);
    [reflexivity | take_event (@nil ShiftView) [view_b; view_c] | reflexivity | ].
  split; [exact Hres | exact Hsame].
Defined.

(** ** Views that open on a double press only *)

(** C8, as the code has it. Let [v] ignore single presses and not be the
    active view. A single press that the trigger of [v] takes (so [v] is
    not passed over in favour of another open view) returns the trigger's
    match and leaves the matcher as it was: the active view, the sustained
    flag and the dirty flag are the same, the store is the one that the
    trigger's own [match] left, and on a host whose [match] paints
    nothing every control keeps its color. *)
Theorem ignored_single_press_changes_nothing `{Host} :
  forall (s : ShiftMatcher) (st : Store Ext) (v : ShiftView)
         (event : Event) (pressed : ControlEvent) (st1 : Store Ext),
    match_keeps_colors ->
    ignore_single_press v = true ->
    active_is s v = false ->
    claimed_by s event st v pressed st1 ->
    is_lift pressed = false ->
    ce_double pressed = false ->
    let r := matchEvent s event st in
    result r = Return (Some pressed)
    /\ matcher r = s
    /\ world r = st1
    /\ forall c, cs_color (controls (world r) c) = cs_color (controls st c).
Proof.
  intros s st v event pressed st1 Hcolors Hignore Hclosed Hclaim Hpress Hsingle r.
  unfold r. rewrite (matchEvent_claimed Hclaim). unfold on_trigger.
  rewrite Hpress, Hclosed, Hsingle, Hignore. simpl.
  repeat split.
  destruct Hclaim as (_ & _ & _ & _ & _ & Hmatch).
  intros c. exact (Hcolors _ _ _ _ _ Hmatch c).
Qed.

Lemma pad_match_keeps_colors : @match_keeps_colors pad_host.
Proof.
  intros c event st control st' Hmatch c'. simpl in Hmatch. unfold pad_match in Hmatch.
  destruct (Nat.eqb c 0 || Nat.eqb c (ev_control event)); [ | discriminate].
  injection Hmatch as _ <-. simpl. now destruct (Nat.eqb c' c).
Qed.

(** [ignored_single_press_changes_nothing] on trigger 22 with no view open. *)
Lemma ignored_single_press_changes_nothing_witness :
  let r := matchEvent pad_matcher (press 22) pad_store in
  result r = Return (Some (mkControlEvent 22 1%float 0 false))
  /\ matcher r = pad_matcher
  /\ cs_color (controls (world r) 22) = DISABLED.
Proof.
  destruct (@ignored_single_press_changes_nothing pad_host pad_matcher pad_store
              view_c (press 22) (mkControlEvent 22 1%float 0 false)
              (set_value 22 1%float pad_store))
    as (Hres & Hsame & _ & Hcolor);
    [exact pad_match_keeps_colors | reflexivity | reflexivity
     | take_event [view_a; view_b] (@nil ShiftView) | reflexivity | reflexivity | ].
  split; [exact Hres | split; [exact Hsame | ]].
  now rewrite Hcolor.
Defined.

(** C8 as stated fails: with [view_a] open, [view_c] is passed over, and a
    single press of its trigger 22 (which the trigger would match) goes to
    the open view's sub-matcher; the call returns [None], not the
    trigger's match. *)
Lemma ignored_single_press_not_returned :
  let s := fst in_view_a in
  let st := snd in_view_a in
  let pressed := mkControlEvent 22 1%float 0 false in
  ignore_single_press view_c = true
  /\ In view_c (views s)
  /\ active_is s view_c = false
  /\ (exists st1, ControlSurface_match (trigger view_c) (press 22) st = Some (pressed, st1))
  /\ is_lift pressed = false
  /\ ce_double pressed = false
  /\ result (matchEvent s (press 22) st) = Return None
  /\ result (matchEvent s (press 22) st) <> Return (Some pressed).
Proof.
  simpl. repeat split; auto.
  - eexists. reflexivity.
  - discriminate.
Qed.

(** ** Double press and sustain *)

(** C2, as the code has it. A double press that the trigger of [v] takes
    while [v] is not the active view (so [v] is not passed over in favour
    of another open view) leaves [v] active and sustained. A lift of the
    trigger then keeps [v] active, clears the sustained flag, and sets the
    trigger's value to 1.0 and its color to enabled. A press after that is
    answered by the null control and changes nothing in the matcher, and
    the lift that follows leaves no view active and the trigger's color
    disabled. *)
Theorem double_press_sustains `{Host} :
  forall (s : ShiftMatcher) (st : Store Ext) (v : ShiftView)
         (e1 : Event) (c1 : ControlEvent) (st1 : Store Ext),
    active_is s v = false ->
    claimed_by s e1 st v c1 st1 ->
    is_lift c1 = false ->
    ce_double c1 = true ->
    let r1 := matchEvent s e1 st in
    result r1 = Return (Some c1)
    /\ active_view (matcher r1) = Some v
    /\ sustained (matcher r1) = true
    /\ forall (e2 : Event) (c2 : ControlEvent) (st2 : Store Ext),
         claimed_by (matcher r1) e2 (world r1) v c2 st2 ->
         is_lift c2 = true ->
         let r2 := matchEvent (matcher r1) e2 (world r1) in
         result r2 = Return (Some c2)
         /\ active_view (matcher r2) = Some v
         /\ sustained (matcher r2) = false
         /\ cs_value (controls (world r2) (trigger v)) = 1%float
         /\ cs_color (controls (world r2) (trigger v)) = ENABLED
         /\ forall (e3 : Event) (c3 : ControlEvent) (st3 : Store Ext),
              claimed_by (matcher r2) e3 (world r2) v c3 st3 ->
              is_lift c3 = false ->
              let r3 := matchEvent (matcher r2) e3 (world r2) in
              result r3
                = Return (option_map fst (ControlSurface_match (null s) e3 st3))
              /\ matcher r3 = matcher r2
              /\ forall (e4 : Event) (c4 : ControlEvent) (st4 : Store Ext),
                   claimed_by (matcher r3) e4 (world r3) v c4 st4 ->
                   is_lift c4 = true ->
                   let r4 := matchEvent (matcher r3) e4 (world r3) in
                   result r4 = Return (Some c4)
                   /\ active_view (matcher r4) = None
                   /\ sustained (matcher r4) = false
                   /\ cs_color (controls (world r4) (trigger v)) = DISABLED.
Proof.
  intros s st v e1 c1 st1 Hclosed Hclaim1 Hpress1 Hdouble r1.
  assert (Er1 : r1 = open_view (set_sustained true s) v c1 st1)
    by exact (step_double_press Hclaim1 Hclosed Hpress1 Hdouble).
  assert (A1 : active_view (matcher r1) = Some v) by now rewrite Er1.
  assert (S1 : sustained (matcher r1) = true) by now rewrite Er1.
  split; [now rewrite Er1 | split; [exact A1 | split; [exact S1 | ]]].
  intros e2 c2 st2 Hclaim2 Hlift2 r2.
  assert (Er2 : r2 = mkStep (Return (Some c2)) (set_sustained false (matcher r1))
                       (set_color (trigger v) ENABLED (set_value (trigger v) 1%float st2)))
    by exact (step_lift_sustained Hclaim2 A1 S1 Hlift2).
  assert (A2 : active_view (matcher r2) = Some v) by now rewrite Er2.
  assert (S2 : sustained (matcher r2) = false) by now rewrite Er2.
  split; [now rewrite Er2 | split; [exact A2 | split; [exact S2 | ]]].
  split; [rewrite Er2; simpl; now rewrite Nat.eqb_refl | ].
  split; [rewrite Er2; simpl; now rewrite Nat.eqb_refl | ].
  intros e3 c3 st3 Hclaim3 Hpress3 r3.
  destruct (step_press_in_open_view Hclaim3 A2 Hpress3) as [Eres3 Em3].
  fold r3 in Eres3, Em3.
  assert (N : null (matcher r2) = null s) by now rewrite Er2, Er1.
  rewrite N in Eres3.
  split; [exact Eres3 | split; [exact Em3 | ]].
  intros e4 c4 st4 Hclaim4 Hlift4 r4.
  assert (A3 : active_view (matcher r3) = Some v) by now rewrite Em3.
  assert (S3 : sustained (matcher r3) = false) by now rewrite Em3.
  assert (Er4 : r4 = mkStep (Return (Some c4))
                       (set_active_view None (set_changed true (matcher r3)))
                       (set_color (trigger v) DISABLED st4))
    by exact (step_lift_closes Hclaim4 A3 S3 Hlift4).
  rewrite Er4. simpl. rewrite Nat.eqb_refl. simpl. auto.
Qed.

(** [double_press_sustains] on trigger 20: double press, lift, press, lift. *)
Lemma double_press_sustains_witness :
  let r1 := matchEvent pad_matcher (double_press 20) pad_store in
  let r2 := matchEvent (matcher r1) (lift 20) (world r1) in
  let r3 := matchEvent (matcher r2) (press 20) (world r2) in
  let r4 := matchEvent (matcher r3) (lift 20) (world r3) in
  (active_view (matcher r1) = Some view_a /\ sustained (matcher r1) = true)
  /\ (active_view (matcher r2) = Some view_a /\ sustained (matcher r2) = false
      /\ cs_value (controls (world r2) 20) = 1%float
      /\ cs_color (controls (world r2) 20) = ENABLED)
  /\ matcher r3 = matcher r2
  /\ (active_view (matcher r4) = None
      /\ cs_color (controls (world r4) 20) = DISABLED).
Proof.
  intros r1 r2 r3 r4.
  destruct (@double_press_sustains pad_host pad_matcher pad_store view_a
              (double_press 20) (mkControlEvent 20 1%float 0 true)
              (set_value 20 1%float pad_store))
    as (_ & A1 & S1 & Hlift);
    [reflexivity | take_event (@nil ShiftView) [view_b; view_c]
     | reflexivity | reflexivity | ].
  destruct (Hlift (lift 20) (mkControlEvent 20 0%float 0 false)
              (set_value 20 0%float (world r1)))
    as (_ & A2 & S2 & V2 & C2 & Hpress);
    [take_event (@nil ShiftView) [view_b; view_c] | reflexivity | ].
  destruct (Hpress (press 20) (mkControlEvent 20 1%float 0 false)
              (set_value 20 1%float (world r2)))
    as (_ & M3 & Hclose);
    [take_event (@nil ShiftView) [view_b; view_c] | reflexivity | ].
  destruct (Hclose (lift 20) (mkControlEvent 20 0%float 0 false)
              (set_value 20 0%float (world r3)))
    as (_ & A4 & _ & C4);
    [take_event (@nil ShiftView) [view_b; view_c] | reflexivity | ].
  repeat split; assumption.
Defined.

(** C2 as stated fails: with [view_a] open, [view_b] is not the active view
    and is passed over, so a double press of its trigger 21 (which the
    trigger would match) leaves [view_a] active and the sustained flag
    down. *)
Lemma double_press_of_disabled_view :
  let s := fst in_view_a in
  let st := snd in_view_a in
  let pressed := mkControlEvent 21 1%float 0 true in
  In view_b (views s)
  /\ active_is s view_b = false
  /\ (exists st1,
        ControlSurface_match (trigger view_b) (double_press 21) st = Some (pressed, st1))
  /\ is_lift pressed = false
  /\ ce_double pressed = true
  /\ active_view (matcher (matchEvent s (double_press 21) st)) = Some view_a
  /\ active_view (matcher (matchEvent s (double_press 21) st)) <> Some view_b
  /\ sustained (matcher (matchEvent s (double_press 21) st)) = false.
Proof.
  simpl. repeat split; auto.
  - eexists. reflexivity.
  - discriminate.
Qed.

(** ** Views disabled in other views *)

Section Disabled.
Context `{H : Host}.
Variables (s : ShiftMatcher) (v w : ShiftView).
Hypothesis Hactive : active_view s = Some v.
Hypothesis Hother : w <> v.
Hypothesis Hdisabled : disable_in_other_views w = true.

Lemma disabled_view_is_skipped : skip_view s w = true.
Proof.
  unfold skip_view, has_active, active_is. rewrite Hactive, Hdisabled.
  rewrite ShiftView_is_neq by congruence. reflexivity.
Qed.

(** The loop over a list of views does what it does on the list without
    [w]. *)
Lemma scan_views_without event st vs :
  scan_views s event st vs = scan_views s event st (without w vs).
Proof.
  induction vs as [ | x vs IH]; simpl; [reflexivity | ].
  destruct (ShiftView_is w x) eqn:Hwx; simpl.
  - apply ShiftView_is_eq in Hwx as <-. now rewrite disabled_view_is_skipped.
  - rewrite IH. reflexivity.
Qed.

End Disabled.

(** C6. While [v] is the active view, a different view [w] with
    [disable_in_other_views] is never tested: for every event, the loop
    over the views returns what it returns on the list without [w], the
    matcher after the call is the one that the other views leave, and [w]
    is not the active view after the call. *)
Theorem disabled_view_is_not_tested `{Host} :
  forall (s : ShiftMatcher) (st : Store Ext) (v w : ShiftView) (event : Event),
    active_view s = Some v ->
    w <> v ->
    disable_in_other_views w = true ->
    let r := matchEvent s event st in
    scan_views s event st (views s) = scan_views s event st (without w (views s))
    /\ matcher r = match scan_views s event st (without w (views s)) with
                   | Some r' => matcher r'
                   | None => s
                   end
    /\ active_view (matcher r) <> Some w.
Proof.
  intros s st v w event Hactive Hother Hdisabled r.
  pose proof (@scan_views_without _ s v w Hactive Hother Hdisabled event st (views s)) as Hscan.
  split; [exact Hscan | ].
  unfold r, matchEvent. rewrite <- Hscan.
  destruct (scan_views s event st (views s)) as [r' | ] eqn:Hloop.
  - split; [reflexivity | ].
    apply scan_views_some in Hloop as (x & c & st' & _ & Hskip & _ & ->).
    assert (Hx : x <> w).
    { intros ->. now rewrite (@disabled_view_is_skipped s v w Hactive Hother Hdisabled) in Hskip. }
    destruct (on_trigger_matcher s x event c st') as [E | [[E _] | [[E _] | [E | E]]]];
      rewrite E; simpl; congruence.
  - rewrite delegate_matcher. split; [reflexivity | congruence].
Qed.

(** [disabled_view_is_not_tested] on trigger 21 while [view_a] is open. *)
Lemma disabled_view_is_not_tested_witness :
  let s := fst in_view_a in
  let r := matchEvent s (double_press 21) (snd in_view_a) in
  matcher r = s /\ active_view (matcher r) <> Some view_b.
Proof.
  destruct (@disabled_view_is_not_tested pad_host (fst in_view_a) (snd in_view_a)
              view_a view_b (double_press 21))
    as (_ & Hsame & Hnot); [reflexivity | discriminate | reflexivity | ].
  split; [exact Hsame | exact Hnot].
Defined.

(** ** The invariant *)

Section Invariant.
Context `{H : Host}.

Lemma init_inv null_control main_view vs :
  ShiftMatcher_inv (ShiftMatcher_init null_control main_view vs).
Proof. split; simpl; discriminate. Qed.

Lemma matchEvent_inv s event st :
  ShiftMatcher_inv s -> ShiftMatcher_inv (matcher (matchEvent s event st)).
Proof.
  intros [Hsus Hin]. unfold matchEvent.
  destruct (scan_views s event st (views s)) as [r | ] eqn:Hscan.
  - apply scan_views_some in Hscan as (v & c & st' & Hv & _ & _ & ->).
    destruct (on_trigger_matcher s v event c st') as [E | [[E _] | [[E Hs] | [E | E]]]];
      rewrite E; split; simpl; try discriminate; auto;
      try (intros _; discriminate); try congruence;
      intros a Ha; injection Ha as <-; exact Hv.
  - rewrite delegate_matcher. now split.
Qed.

Lemma tick_inv s thorough st :
  ShiftMatcher_inv s -> ShiftMatcher_inv (fst (fst (tick s thorough st))).
Proof.
  intros Hinv. rewrite tick_matcher. now destruct (changed s).
Qed.

Lemma tick_views_kept s thorough st :
  views (fst (fst (tick s thorough st))) = views s.
Proof. rewrite tick_matcher. now destruct (changed s). Qed.

Lemma run_inv ops : forall x,
  ShiftMatcher_inv (fst x) ->
  ShiftMatcher_inv (fst (run ops x)) /\ views (fst (run ops x)) = views (fst x).
Proof.
  induction ops as [ | o ops IH]; intros x Hinv; simpl; [now split | ].
  assert (Hstep : ShiftMatcher_inv (fst (run_op o x))
                  /\ views (fst (run_op o x)) = views (fst x)).
  { destruct o as [event | thorough]; simpl.
    - split; [now apply matchEvent_inv | apply matchEvent_views].
    - split; [now apply tick_inv | apply tick_views_kept]. }
  destruct Hstep as [Hinv' Hviews].
  destruct (IH _ Hinv') as [Hfinal Hsame].
  split; [exact Hfinal | congruence].
Qed.

End Invariant.

(** C4. After any sequence of [matchEvent] and [tick] calls on a matcher
    fresh from [__init__], on any events and in any store: the active view
    is one optional view (two views that are active are the same view),
    it is one of the registered views, and if the sustained flag is up then
    some view is active. *)
Theorem sustained_implies_active `{Host} :
  forall (null_control : ControlId) (main_view : MatcherId) (vs : list ShiftView)
         (ops : list Op) (st : Store Ext),
    let s := fst (run ops (ShiftMatcher_init null_control main_view vs, st)) in
    (sustained s = true -> active_view s <> None)
    /\ (forall a b, active_view s = Some a -> active_view s = Some b -> a = b)
    /\ (forall a, active_view s = Some a -> In a vs).
Proof.
  intros null_control main_view vs ops st s.
  destruct (run_inv ops (ShiftMatcher_init null_control main_view vs, st)
              (init_inv null_control main_view vs)) as [[Hsus Hin] Hviews].
  fold s in Hsus, Hin, Hviews. simpl in Hviews.
  split; [exact Hsus | split].
  - congruence.
  - intros a Ha. rewrite <- Hviews. now apply Hin.
Qed.

(** [sustained_implies_active] after a double press of trigger 20 and a
    tick. *)
Lemma sustained_implies_active_witness :
  let s := fst (run [OpMatchEvent (double_press 20); OpTick false]
                    (pad_matcher, pad_store)) in
  sustained s = true /\ active_view s <> None /\ In view_a (views pad_matcher).
Proof.
  destruct (@sustained_implies_active pad_host 0 0 [view_a; view_b; view_c]
              [@OpMatchEvent pad_host (double_press 20); OpTick false] pad_store)
    as (Hsus & _ & Hin).
  split; [reflexivity | split].
  - apply Hsus. reflexivity.
  - apply Hin. reflexivity.
Defined.

(** ** tick *)

Lemma skip_tick_changed (s : ShiftMatcher) (v : ShiftView) :
  skip_tick (if changed s then set_changed false s else s) v = skip_tick s v.
Proof. now destruct (changed s). Qed.

Lemma matcher_ticks_after_triggers (thorough : bool) (vs : list ShiftView) (last : Call) :
  matcher_ticks (map (fun v => DoTick (trigger v) thorough) vs ++ [last])
  = matcher_ticks [last].
Proof. induction vs as [ | v vs IH]; simpl; auto. Qed.

(** The calls of one [tick]: the triggers of the views that are not passed
    over, then one sub-matcher; all with the flag that the dirty flag
    forces. *)
Lemma tick_calls_shape `{Host} (s : ShiftMatcher) (thorough : bool) (st : Store Ext) :
  snd (tick s thorough st)
  = map (fun v => DoTick (trigger v) (changed s || thorough))
        (filter (fun v => negb (skip_tick s v)) (views s))
    ++ [TickMatcher (ticked_matcher s) (changed s || thorough)].
Proof.
  rewrite tick_calls, tick_views_calls.
  replace (if changed s then true else thorough) with (changed s || thorough)
    by now destruct (changed s).
  f_equal. f_equal. apply filter_ext. intros v. now rewrite skip_tick_changed.
Qed.

(** C5, as the code has it. A [tick] on a dirty matcher clears the dirty
    flag and calls [doTick] with [thorough=True] on the trigger of every
    view that the loop does not pass over (a view is passed over when it is
    not the active view and has [disable_in_other_views]); no [doTick] is
    made on behalf of any other view. On every [tick] exactly one
    sub-matcher is ticked: the active view's, or the main matcher when no
    view is active; no other sub-matcher is ticked, and the active view
    and the sustained flag are left alone. *)
Theorem tick_refreshes_triggers_and_one_matcher `{Host} :
  forall (s : ShiftMatcher) (thorough : bool) (st : Store Ext),
    let s' := fst (fst (tick s thorough st)) in
    let calls := snd (tick s thorough st) in
    (changed s = true ->
       (forall v, In v (views s) -> skip_tick s v = false ->
          In (DoTick (trigger v) true) calls)
       /\ (forall c th, In (DoTick c th) calls -> th = true)
       /\ In (TickMatcher (ticked_matcher s) true) calls)
    /\ changed s' = false
    /\ (forall c th, In (DoTick c th) calls ->
          exists v, In v (views s) /\ skip_tick s v = false /\ trigger v = c)
    /\ matcher_ticks calls = [TickMatcher (ticked_matcher s) (changed s || thorough)]
    /\ (forall m th, In (TickMatcher m th) calls -> m = ticked_matcher s)
    /\ active_view s' = active_view s
    /\ sustained s' = sustained s.
Proof.
  intros s thorough st s' calls.
  assert (Ecalls : calls
    = map (fun v => DoTick (trigger v) (changed s || thorough))
          (filter (fun v => negb (skip_tick s v)) (views s))
      ++ [TickMatcher (ticked_matcher s) (changed s || thorough)])
    by apply tick_calls_shape.
  assert (Es' : s' = if changed s then set_changed false s else s)
    by apply tick_matcher.
  assert (Hdo : forall c th, In (DoTick c th) calls ->
            th = (changed s || thorough)
            /\ exists v, In v (views s) /\ skip_tick s v = false /\ trigger v = c).
  { intros c th Hin. rewrite Ecalls in Hin. apply in_app_iff in Hin as [Hin | Hin].
    - apply in_map_iff in Hin as (v & [= <- <-] & Hv).
      apply filter_In in Hv as [Hv Hskip]. split; [reflexivity | ].
      exists v. repeat split; auto. now apply negb_true_iff.
    - destruct Hin as [Hin | []]. discriminate. }
  split; [ | split; [ | split; [ | split; [ | split; [ | split]]]]].
  - intros Hdirty. split; [ | split].
    + intros v Hv Hskip. rewrite Ecalls, Hdirty. apply in_app_iff. left.
      apply in_map_iff. exists v. split; [reflexivity | ].
      apply filter_In. split; [exact Hv | now rewrite Hskip].
    + intros c th Hin. apply Hdo in Hin as [-> _]. now rewrite Hdirty.
    + rewrite Ecalls, Hdirty. apply in_app_iff. right. now left.
  - rewrite Es'. now destruct (changed s) eqn:E.
  - intros c th Hin. now apply Hdo in Hin.
  - rewrite Ecalls. apply matcher_ticks_after_triggers.
  - intros m th Hin. rewrite Ecalls in Hin. apply in_app_iff in Hin as [Hin | Hin].
    + apply in_map_iff in Hin as (v & Hv & _). discriminate.
    + destruct Hin as [[= <- _] | []]. reflexivity.
  - rewrite Es'. now destruct (changed s).
  - rewrite Es'. now destruct (changed s).
Qed.

(** [tick_refreshes_triggers_and_one_matcher] on the first tick of the
    small device. *)
Lemma tick_refreshes_triggers_and_one_matcher_witness :
  let calls := snd (tick pad_matcher false pad_store) in
  In (DoTick 20 true) calls
  /\ In (TickMatcher 0 true) calls
  /\ matcher_ticks calls = [TickMatcher 0 true].
Proof.
  destruct (@tick_refreshes_triggers_and_one_matcher pad_host pad_matcher false pad_store)
    as (Hdirty & _ & _ & Hone & _).
  destruct (Hdirty eq_refl) as (Htriggers & _ & Hmain).
  split; [ | split; [exact Hmain | exact Hone]].
  apply (Htriggers view_a); [now left | reflexivity].
Defined.

(** C5 as stated fails: with [view_a] open the matcher is dirty and
    [view_b] is registered, but [view_b] is passed over and no [doTick]
    reaches its trigger 21; the calls are [doTick] on trigger 20 and the
    tick of the sub-matcher of [view_a]. *)
Lemma tick_passes_over_disabled_trigger :
  let s := fst in_view_a in
  let calls := snd (tick s false (snd in_view_a)) in
  changed s = true
  /\ In view_b (views s)
  /\ calls = [DoTick 20 true; TickMatcher 1 true]
  /\ (forall th, ~ In (DoTick (trigger view_b) th) calls).
Proof.
  simpl. repeat split; auto.
  intros th [Hin | [Hin | []]]; discriminate.
Qed.

(** ** Fallback *)

(** When no trigger takes the event and the open view's sub-matcher does
    not match it, the flag that decides on the fallback is read from the
    loop variable, the last view of the list. *)
Lemma fallback_follows_loop_variable `{Host} :
  forall (s : ShiftMatcher) (st st' : Store Ext) (a last : ShiftView) (event : Event),
    active_view s = Some a ->
    scan_views s event st (views s) = None ->
    IControlMatcher_matchEvent (view a) event st = (None, st') ->
    loop_variable (views s) = Some last ->
    result (matchEvent s event st)
    = if allow_fallback_match last
      then Return (fst (IControlMatcher_matchEvent (main s) event st'))
      else Return None.
Proof.
  intros s st st' a last event Hactive Hscan Hsub Hlast.
  unfold matchEvent, delegate. rewrite Hscan, Hactive, Hsub, Hlast.
  destruct (allow_fallback_match last); [ | reflexivity].
  now destruct (IControlMatcher_matchEvent (main s) event st').
Qed.

(** With the open view last in the list (so with a single view), its own
    flag decides. *)
Lemma fallback_of_last_view `{Host} :
  forall (s : ShiftMatcher) (st st' : Store Ext) (a : ShiftView) (event : Event),
    active_view s = Some a ->
    loop_variable (views s) = Some a ->
    scan_views s event st (views s) = None ->
    IControlMatcher_matchEvent (view a) event st = (None, st') ->
    (allow_fallback_match a = false -> result (matchEvent s event st) = Return None)
    /\ (allow_fallback_match a = true ->
          result (matchEvent s event st)
          = Return (fst (IControlMatcher_matchEvent (main s) event st'))).
Proof.
  intros s st st' a event Hactive Hlast Hscan Hsub.
  rewrite (fallback_follows_loop_variable s st event Hactive Hscan Hsub Hlast).
  split; intros ->; reflexivity.
Qed.

(** C1. On the small device with [view_a] open: [view_a] does not allow
    the fallback, its sub-matcher does not match a press of control 10, no
    trigger takes it, and the main matcher matches it. The call returns the
    main matcher's match, not [None]: the flag was read from [view_c], the
    last view of the list. *)
Theorem fallback_flag_of_last_view :
  let s := fst in_view_a in
  let st := snd in_view_a in
  let event := press 10 in
  active_view s = Some view_a
  /\ allow_fallback_match view_a = false
  /\ scan_views s event st (views s) = None
  /\ fst (IControlMatcher_matchEvent (view view_a) event st) = None
  /\ fst (IControlMatcher_matchEvent (main s) event st)
     = Some (mkControlEvent 10 1%float 0 false)
  /\ loop_variable (views s) = Some view_c
  /\ allow_fallback_match view_c = true
  /\ result (matchEvent s event st) = Return (Some (mkControlEvent 10 1%float 0 false)).
Proof. simpl. repeat split. Qed.

(** * More on the matcher *)

(** ** The controls of a matcher *)

Section GetControls.
Variable IControlMatcher_getControls : MatcherId -> list ControlId.

Lemma getControls_loop (vs : list ShiftView) (controls : list ControlId) :
  fold_left
    (fun controls v =>
       (controls ++ [trigger v]) ++ IControlMatcher_getControls (view v))
    vs controls
  = controls ++ flat_map (fun v => trigger v :: IControlMatcher_getControls (view v)) vs.
Proof.
  revert controls. induction vs as [ | v vs IH]; intros controls; simpl.
  - now rewrite app_nil_r.
  - rewrite IH. now rewrite <- !app_assoc.
Qed.

(** X1. [getControls] lists the controls of the main matcher, then for every
    view in order its trigger followed by the controls of its
    sub-matcher: a control is listed exactly when it is one of these,
    whatever the flags of the views and whichever view is open. *)
Theorem getControls_lists_every_layer :
  forall s : ShiftMatcher,
    getControls IControlMatcher_getControls s
    = IControlMatcher_getControls (main s)
      ++ flat_map (fun v => trigger v :: IControlMatcher_getControls (view v)) (views s)
    /\ (forall c,
          In c (getControls IControlMatcher_getControls s)
          <-> In c (IControlMatcher_getControls (main s))
              \/ exists v, In v (views s)
                           /\ (c = trigger v
                               \/ In c (IControlMatcher_getControls (view v)))).
Proof.
  intros s.
  assert (E : getControls IControlMatcher_getControls s
              = IControlMatcher_getControls (main s)
                ++ flat_map (fun v => trigger v :: IControlMatcher_getControls (view v))
                            (views s))
    by apply getControls_loop.
  split; [exact E | ].
  intros c. rewrite E, in_app_iff, in_flat_map. split.
  - intros [Hm | (v & Hv & [Ht | Hc])]; [now left | right; exists v; auto ..].
  - intros [Hm | (v & Hv & [Ht | Hc])];
      [now left | right; exists v; split; [exact Hv | ] ..].
    + now left.
    + now right.
Qed.

End GetControls.

Section Configuration.
Context `{H : Host}.

Lemma on_trigger_config s v event control st :
  let s' := matcher (on_trigger s v event control st) in
  null s' = null s /\ main s' = main s.
Proof.
  destruct (on_trigger_matcher s v event control st) as [E | [[E _] | [[E _] | [E | E]]]];
    simpl in E; rewrite E; split; reflexivity.
Qed.

Lemma matchEvent_config s event st :
  let s' := matcher (matchEvent s event st) in
  null s' = null s /\ main s' = main s.
Proof.
  unfold matchEvent. destruct (scan_views s event st (views s)) as [r | ] eqn:Hscan.
  - apply scan_views_some in Hscan as (v & c & st' & _ & _ & _ & ->).
    apply on_trigger_config.
  - simpl. now rewrite delegate_matcher.
Qed.

Lemma run_config ops : forall x,
  null (fst (run ops x)) = null (fst x) /\ main (fst (run ops x)) = main (fst x).
Proof.
  induction ops as [ | o ops IH]; intros x; simpl; [now split | ].
  destruct (IH (run_op o x)) as [Hn Hm]. rewrite Hn, Hm.
  destruct o as [event | thorough]; simpl.
  - apply matchEvent_config.
  - rewrite tick_matcher. now destruct (changed (fst x)).
Qed.

Lemma run_views ops : forall x, views (fst (run ops x)) = views (fst x).
Proof.
  induction ops as [ | o ops IH]; intros x; simpl; [reflexivity | ].
  rewrite IH. destruct o as [event | thorough]; simpl.
  - apply matchEvent_views.
  - apply tick_views_kept.
Qed.

Lemma loop_variable_some (vs : list ShiftView) :
  vs <> [] -> exists v, loop_variable vs = Some v /\ In v vs.
Proof.
  induction vs as [ | x vs IH]; [congruence | ]. intros _.
  destruct vs as [ | y vs].
  - exists x. split; [reflexivity | now left].
  - destruct IH as (v & Hv & Hin); [discriminate | ].
    exists v. split; [exact Hv | now right].
Qed.

Lemma matchEvent_returns s event st :
  ShiftMatcher_inv s -> exists r, result (matchEvent s event st) = Return r.
Proof.
  intros [_ Hin]. unfold matchEvent.
  destruct (scan_views s event st (views s)) as [r | ] eqn:Hscan.
  - apply scan_views_some in Hscan as (v & c & st' & _ & _ & _ & ->).
    unfold on_trigger, open_view.
    repeat match goal with
           | |- context [if ?b then _ else _] => destruct b
           | |- context [match ControlSurface_match ?a ?b ?c with _ => _ end] =>
               destruct (ControlSurface_match a b c) as [[? ?] | ]
           end; simpl; eexists; reflexivity.
  - unfold delegate. destruct (active_view s) as [a | ] eqn:Ha.
    + destruct (IControlMatcher_matchEvent (view a) event st) as [[m | ] st'];
        [eexists; reflexivity | ].
      destruct (loop_variable_some (vs := views s)) as (v & -> & _).
      { intros E. specialize (Hin a eq_refl). now rewrite E in Hin. }
      destruct (allow_fallback_match v); [ | eexists; reflexivity].
      destruct (IControlMatcher_matchEvent (main s) event st'). eexists; reflexivity.
    + destruct (IControlMatcher_matchEvent (main s) event st). eexists; reflexivity.
Qed.

Lemma scan_views_unclaimed s event st vs :
  (forall v, In v vs ->
     skip_view s v = true \/ ControlSurface_match (trigger v) event st = None) ->
  scan_views s event st vs = None.
Proof.
  induction vs as [ | v vs IH]; intros Hnone; simpl; [reflexivity | ].
  assert (Hrest : scan_views s event st vs = None)
    by (apply IH; intros w Hw; apply Hnone; now right).
  destruct (Hnone v (or_introl eq_refl)) as [-> | Hv]; [exact Hrest | ].
  rewrite Hv. now destruct (skip_view s v).
Qed.

End Configuration.

(** X2. Over any sequence of [matchEvent] and [tick] calls the configuration
    of a matcher stays what it was: the same views, main matcher and null
    control, and so the same list of controls. *)
Theorem configuration_is_kept `{Host} :
  forall (ops : list Op) (s : ShiftMatcher) (st : Store Ext)
         (IControlMatcher_getControls : MatcherId -> list ControlId),
    let s' := fst (run ops (s, st)) in
    views s' = views s
    /\ main s' = main s
    /\ null s' = null s
    /\ getControls IControlMatcher_getControls s'
       = getControls IControlMatcher_getControls s.
Proof.
  intros ops s st g s'.
  pose proof (run_views ops (s, st)) as Hv.
  destruct (run_config ops (s, st)) as [Hn Hm].
  fold s' in Hv, Hn, Hm. simpl in Hv, Hn, Hm.
  repeat split; auto.
  unfold getControls. now rewrite Hv, Hm.
Qed.

(** ** Calls that always return *)

(** X3. On a matcher fresh from [__init__], after any sequence of
    [matchEvent] and [tick] calls, [matchEvent] returns: the loop variable
    that the fallback branch reads is bound whenever a view is open. *)
Theorem matchEvent_always_returns `{Host} :
  forall (null_control : ControlId) (main_view : MatcherId) (vs : list ShiftView)
         (ops : list Op) (st : Store Ext) (event : Event),
    let x := run ops (ShiftMatcher_init null_control main_view vs, st) in
    exists r, result (matchEvent (fst x) event (snd x)) = Return r.
Proof.
  intros null_control main_view vs ops st event x.
  apply matchEvent_returns.
  apply (run_inv ops (ShiftMatcher_init null_control main_view vs, st)).
  apply init_inv.
Qed.

(** ** Events that no trigger takes *)

(** X4. An event that no trigger takes (every view is passed over or has a
    trigger that does not match; so also with no views at all) leaves the
    matcher as it is. With no view open the call is the main matcher's
    [matchEvent]; with a view open whose sub-matcher matches the event, it
    is the sub-matcher's match, and the main matcher is not asked. *)
Theorem unclaimed_event_goes_to_a_layer `{Host} :
  forall (s : ShiftMatcher) (st : Store Ext) (event : Event),
    (forall v, In v (views s) ->
       skip_view s v = true \/ ControlSurface_match (trigger v) event st = None) ->
    let r := matchEvent s event st in
    matcher r = s
    /\ (active_view s = None ->
          result r = Return (fst (IControlMatcher_matchEvent (main s) event st))
          /\ world r = snd (IControlMatcher_matchEvent (main s) event st))
    /\ (forall a m st',
          active_view s = Some a ->
          IControlMatcher_matchEvent (view a) event st = (Some m, st') ->
          result r = Return (Some m) /\ world r = st').
Proof.
  intros s st event Hnone r.
  assert (Er : r = delegate s event st).
  { unfold r, matchEvent. now rewrite (scan_views_unclaimed s event st (views s) Hnone). }
  rewrite Er. split; [apply delegate_matcher | split].
  - intros Hidle. unfold delegate. rewrite Hidle.
    now destruct (IControlMatcher_matchEvent (main s) event st).
  - intros a m st' Hactive Hsub. unfold delegate. now rewrite Hactive, Hsub.
Qed.

(** [unclaimed_event_goes_to_a_layer] on the small device: control 10
    with no view open, control 11 with [view_a] open. *)
Lemma unclaimed_event_goes_to_a_layer_witness :
  result (matchEvent pad_matcher (press 10) pad_store)
    = Return (Some (mkControlEvent 10 1%float 0 false))
  /\ result (matchEvent (fst in_view_a) (press 11) (snd in_view_a))
    = Return (Some (mkControlEvent 11 1%float 0 false)).
Proof.
  split.
  - destruct (@unclaimed_event_goes_to_a_layer pad_host pad_matcher pad_store (press 10))
      as (_ & Hmain & _).
    + intros v Hv; simpl in Hv;
        repeat (destruct Hv as [<- | Hv]; [right; reflexivity | ]); contradiction.
    + now destruct (Hmain eq_refl) as [-> _].
  - destruct (@unclaimed_event_goes_to_a_layer pad_host (fst in_view_a) (snd in_view_a)
                (press 11)) as (_ & _ & Hsub).
    + intros v Hv; simpl in Hv;
        repeat (destruct Hv as [<- | Hv];
                [first [left; reflexivity | right; reflexivity] | ]); contradiction.
    + now destruct (Hsub view_a (mkControlEvent 11 1%float 0 false)
                      (set_value 11 1%float (snd in_view_a)) eq_refl eq_refl) as [-> _].
Defined.

(** ** The dirty flag *)

(** X5. [matchEvent] never clears the dirty flag, and raises it whenever it
    changes the active view; the tick that follows such a change is
    thorough in every call it makes, whatever argument it is given. *)
Theorem dirty_flag_follows_the_view `{Host} :
  forall (s : ShiftMatcher) (st : Store Ext) (event : Event),
    let s' := matcher (matchEvent s event st) in
    (changed s = true -> changed s' = true)
    /\ (active_view s' <> active_view s ->
          changed s' = true
          /\ forall thorough st' c,
               In c (snd (tick s' thorough st')) -> call_thorough c = true).
Proof.
  intros s st event s'.
  assert (Hcases : s' = s
                   \/ (changed s' = changed s /\ active_view s' = active_view s)
                   \/ changed s' = true).
  { unfold s', matchEvent.
    destruct (scan_views s event st (views s)) as [r | ] eqn:Hscan.
    - apply scan_views_some in Hscan as (v & c & st' & _ & _ & _ & ->).
      destruct (on_trigger_matcher s v event c st') as [E | [[E _] | [[E _] | [E | E]]]];
        rewrite E; auto.
    - left. apply delegate_matcher. }
  split.
  - intros Hdirty. destruct Hcases as [-> | [[-> _] | Hc]]; auto.
  - intros Hview.
    assert (Hdirty : changed s' = true).
    { destruct Hcases as [E | [[_ E] | Hc]]; auto; now rewrite E in Hview. }
    split; [exact Hdirty | ].
    intros thorough st' c Hin. rewrite tick_calls_shape, Hdirty in Hin.
    apply in_app_iff in Hin as [Hin | [<- | []]]; [ | reflexivity].
    apply in_map_iff in Hin as (v & <- & _). reflexivity.
Qed.

(** [dirty_flag_follows_the_view] on the small device: a tick, then a
    press of trigger 20. *)
Lemma dirty_flag_follows_the_view_witness :
  let x := run [OpTick false] (pad_matcher, pad_store) in
  let s' := matcher (matchEvent (fst x) (press 20) (snd x)) in
  changed (fst x) = false
  /\ changed s' = true
  /\ forall c, In c (snd (tick s' false (snd x))) -> call_thorough c = true.
Proof.
  intros x s'.
  destruct (@dirty_flag_follows_the_view pad_host (fst x) (snd x) (press 20))
    as (_ & Hview).
  destruct Hview as [Hdirty Hcalls]; [discriminate | ].
  split; [reflexivity | split; [exact Hdirty | ]].
  intros c. apply Hcalls.
Defined.

(** ** Lifts and presses of other views *)

(** X6. A lift taken by the trigger of a view that is not the active view is
    returned as it is: the matcher is unchanged, an open view stays open,
    and the store is the one that the trigger's [match] left. *)
Theorem lift_of_closed_view_changes_nothing `{Host} :
  forall (s : ShiftMatcher) (st : Store Ext) (v : ShiftView)
         (event : Event) (lifted : ControlEvent) (st1 : Store Ext),
    claimed_by s event st v lifted st1 ->
    is_lift lifted = true ->
    active_is s v = false ->
    matchEvent s event st = mkStep (Return (Some lifted)) s st1.
Proof.
  intros s st v event lifted st1 Hclaim Hlift Hclosed.
  rewrite (matchEvent_claimed Hclaim). unfold on_trigger.
  now rewrite Hlift, Hclosed.
Qed.

(** [lift_of_closed_view_changes_nothing] on trigger 20 with no view open. *)
Lemma lift_of_closed_view_changes_nothing_witness :
  matchEvent pad_matcher (lift 20) pad_store
  = mkStep (Return (Some (mkControlEvent 20 0%float 0 false))) pad_matcher
           (set_value 20 0%float pad_store).
Proof.
  apply (@lift_of_closed_view_changes_nothing pad_host pad_matcher pad_store view_a).
  - take_event (@nil ShiftView) [view_b; view_c].
  - reflexivity.
  - reflexivity.
Defined.

(** X7. A single press that moves from a sustained view [u] to another view
    [v] leaves the sustained flag up: [v] is open and sustained without a
    double press, and the first lift of its trigger does not close it. *)
Theorem sustain_is_inherited `{Host} :
  forall (s : ShiftMatcher) (st : Store Ext) (u v : ShiftView)
         (e1 : Event) (pressed : ControlEvent) (st1 : Store Ext),
    active_view s = Some u ->
    sustained s = true ->
    v <> u ->
    ignore_single_press v = false ->
    claimed_by s e1 st v pressed st1 ->
    is_lift pressed = false ->
    ce_double pressed = false ->
    let r1 := matchEvent s e1 st in
    active_view (matcher r1) = Some v
    /\ sustained (matcher r1) = true
    /\ forall (e2 : Event) (lifted : ControlEvent) (st2 : Store Ext),
         claimed_by (matcher r1) e2 (world r1) v lifted st2 ->
         is_lift lifted = true ->
         let r2 := matchEvent (matcher r1) e2 (world r1) in
         active_view (matcher r2) = Some v /\ sustained (matcher r2) = false.
Proof.
  intros s st u v e1 pressed st1 Hactive Hsus Huv Hsingle Hclaim Hpress Hdouble r1.
  assert (Hclosed : active_is s v = false).
  { unfold active_is. rewrite Hactive. apply ShiftView_is_neq. congruence. }
  assert (Er1 : r1 = open_view s v pressed st1).
  { unfold r1. rewrite (step_single_press Hclaim Hclosed Hpress Hdouble).
    now rewrite Hsingle. }
  assert (A1 : active_view (matcher r1) = Some v) by now rewrite Er1.
  assert (S1 : sustained (matcher r1) = true) by now rewrite Er1.
  split; [exact A1 | split; [exact S1 | ]].
  intros e2 lifted st2 Hclaim2 Hlift r2.
  unfold r2. rewrite (step_lift_sustained Hclaim2 A1 S1 Hlift). simpl.
  split; [exact A1 | reflexivity].
Qed.

(** [sustain_is_inherited] on the small device: from [view_b] sustained, a
    press and a lift of trigger 20. *)
Lemma sustain_is_inherited_witness :
  let x := in_view_b_sustained in
  let r1 := matchEvent (fst x) (press 20) (snd x) in
  let r2 := matchEvent (matcher r1) (lift 20) (world r1) in
  active_view (matcher r1) = Some view_a
  /\ sustained (matcher r1) = true
  /\ active_view (matcher r2) = Some view_a.
Proof.
  intros x r1 r2.
  destruct (@sustain_is_inherited pad_host (fst x) (snd x) view_b view_a (press 20)
              (mkControlEvent 20 1%float 0 false) (set_value 20 1%float (snd x)))
    as (A1 & S1 & Hlift);
    [reflexivity | reflexivity | discriminate | reflexivity
     | take_event (@nil ShiftView) [view_b; view_c] | reflexivity | reflexivity | ].
  split; [exact A1 | split; [exact S1 | ]].
  apply (Hlift (lift 20) (mkControlEvent 20 0%float 0 false)
           (set_value 20 0%float (world r1))).
  - take_event (@nil ShiftView) [view_b; view_c].
  - reflexivity.
Defined.

(** ** Fallback with views that agree *)

(** X8. When all the views carry the same [allow_fallback_match] flag, that
    flag decides: with a registered view open, an event that no trigger
    takes and that the open view's sub-matcher does not match is answered
    by the main matcher when the flag is up, and by [None] when it is
    down. *)
Theorem fallback_of_agreeing_views `{Host} :
  forall (s : ShiftMatcher) (st st' : Store Ext) (a : ShiftView) (event : Event)
         (flag : bool),
    active_view s = Some a ->
    In a (views s) ->
    (forall v, In v (views s) -> allow_fallback_match v = flag) ->
    (forall v, In v (views s) ->
       skip_view s v = true \/ ControlSurface_match (trigger v) event st = None) ->
    IControlMatcher_matchEvent (view a) event st = (None, st') ->
    result (matchEvent s event st)
    = if flag then Return (fst (IControlMatcher_matchEvent (main s) event st'))
      else Return None.
Proof.
  intros s st st' a event flag Hactive Hin Hflags Hnone Hsub.
  destruct (loop_variable_some (vs := views s)) as (v & Hlast & Hv).
  { intros E. now rewrite E in Hin. }
  rewrite (fallback_follows_loop_variable s st event Hactive
             (scan_views_unclaimed s event st (views s) Hnone) Hsub Hlast).
  now rewrite (Hflags v Hv).
Qed.

(** [fallback_of_agreeing_views] on the two views that allow the
    fallback: control 10 of the main matcher with [view_b] open. *)
Lemma fallback_of_agreeing_views_witness :
  result (matchEvent (fst in_view_b_of_two) (press 10) (snd in_view_b_of_two))
  = Return (Some (mkControlEvent 10 1%float 0 false)).
Proof.
  apply (@fallback_of_agreeing_views pad_host (fst in_view_b_of_two)
           (snd in_view_b_of_two) (snd in_view_b_of_two) view_b (press 10) true).
  - reflexivity.
  - now left.
  - intros v Hv; simpl in Hv;
      repeat (destruct Hv as [<- | Hv]; [reflexivity | ]); contradiction.
  - intros v Hv; simpl in Hv;
      repeat (destruct Hv as [<- | Hv];
              [first [left; reflexivity | right; reflexivity] | ]); contradiction.
  - reflexivity.
Defined.

(** ** Ticks *)

(** X9. A tick that follows a tick (no event in between) leaves the matcher as
    the first tick left it and makes the same calls on the same triggers
    and sub-matcher, each with the [thorough] argument it was given: the
    dirty flag forces one thorough cycle, not two. *)
Theorem second_tick_is_as_asked `{Host} :
  forall (s : ShiftMatcher) (first second : bool) (st : Store Ext),
    let t1 := tick s first st in
    let t2 := tick (fst (fst t1)) second (snd (fst t1)) in
    fst (fst t2) = fst (fst t1)
    /\ snd t2 = map (with_thorough second) (snd t1)
    /\ (forall c, In c (snd t2) -> call_thorough c = second).
Proof.
  intros s first second st. cbv zeta.
  set (s1 := fst (fst (tick s first st))).
  set (st1 := snd (fst (tick s first st))).
  assert (Es1 : s1 = if changed s then set_changed false s else s)
    by apply tick_matcher.
  assert (Hclean : changed s1 = false) by (rewrite Es1; now destruct (changed s) eqn:E).
  assert (Hviews : views s1 = views s) by (rewrite Es1; now destruct (changed s)).
  assert (Hticked : ticked_matcher s1 = ticked_matcher s)
    by (rewrite Es1; now destruct (changed s)).
  assert (Hskip : forall v, skip_tick s1 v = skip_tick s v)
    by (intros v; rewrite Es1; apply skip_tick_changed).
  assert (E2 : snd (tick s1 second st1) = map (with_thorough second) (snd (tick s first st))).
  { rewrite !tick_calls_shape.
    rewrite Hclean, Hviews, Hticked. simpl.
    rewrite map_app, map_map. simpl. f_equal.
    f_equal. apply filter_ext. intros v. now rewrite Hskip. }
  split; [ | split; [exact E2 | ]].
  - rewrite tick_matcher. now rewrite Hclean.
  - intros c Hin. rewrite E2 in Hin. apply in_map_iff in Hin as (c' & <- & _).
    now destruct c'.
Qed.

Section Looks.
Context `{H : Host}.
Hypothesis Hkeeps : doTick_keeps_looks.

Lemma tick_trigger_looks s thorough v st c :
  cs_is_null (controls (tick_trigger s thorough v st) c) = cs_is_null (controls st c)
  /\ cs_color (controls (tick_trigger s thorough v st) c)
     = if Nat.eqb c (trigger v) && cs_is_null (controls st (trigger v))
       then trigger_color s v
       else cs_color (controls st c).
Proof.
  unfold tick_trigger.
  destruct (Hkeeps (trigger v) thorough
              (if cs_is_null (controls st (trigger v))
               then set_color (trigger v) (if active_is s v then ENABLED else DISABLED) st
               else st) c) as [Hcolor Hnull].
  rewrite Hcolor, Hnull.
  destruct (cs_is_null (controls st (trigger v))) eqn:Hn; simpl.
  - destruct (Nat.eqb c (trigger v)) eqn:Hc; simpl; auto.
  - now rewrite andb_false_r.
Qed.

Lemma tick_views_store_step s thorough v vs st :
  fst (tick_views s thorough (v :: vs) st)
  = if skip_tick s v then fst (tick_views s thorough vs st)
    else fst (tick_views s thorough vs (tick_trigger s thorough v st)).
Proof.
  simpl. destruct (skip_tick s v); [reflexivity | ].
  now destruct (tick_views s thorough vs (tick_trigger s thorough v st)).
Qed.

Lemma tick_views_class s thorough vs : forall st c,
  cs_is_null (controls (fst (tick_views s thorough vs st)) c) = cs_is_null (controls st c).
Proof.
  induction vs as [ | v vs IH]; intros st c; [reflexivity | ].
  rewrite tick_views_store_step. destruct (skip_tick s v); [apply IH | ].
  rewrite IH. apply tick_trigger_looks.
Qed.

(** Controls that are not the null trigger of a view that the loop
    visits keep their color. *)
Lemma tick_views_keeps_color s thorough vs : forall st c,
  (forall v, In v vs -> skip_tick s v = false -> trigger v = c ->
     cs_is_null (controls st c) = false) ->
  cs_color (controls (fst (tick_views s thorough vs st)) c) = cs_color (controls st c).
Proof.
  induction vs as [ | v vs IH]; intros st c Hnot; [reflexivity | ].
  rewrite tick_views_store_step. destruct (skip_tick s v) eqn:Hskip.
  - apply IH. intros w Hw. apply Hnot. now right.
  - rewrite IH.
    + destruct (tick_trigger_looks s thorough v st c) as [_ ->].
      destruct (Nat.eqb c (trigger v)) eqn:Hc; [ | reflexivity].
      apply Nat.eqb_eq in Hc. subst c.
      now rewrite (Hnot v (or_introl eq_refl) Hskip eq_refl).
    + intros w Hw Hws Htw.
      destruct (tick_trigger_looks s thorough v st c) as [-> _].
      apply (Hnot w); auto. now right.
Qed.

Lemma tick_views_paints s thorough vs : forall st v,
  In v vs ->
  skip_tick s v = false ->
  cs_is_null (controls st (trigger v)) = true ->
  (forall w, In w vs -> skip_tick s w = false -> trigger w = trigger v ->
     active_is s w = active_is s v) ->
  cs_color (controls (fst (tick_views s thorough vs st)) (trigger v)) = trigger_color s v.
Proof.
  induction vs as [ | x vs IH]; intros st v Hin Hskip Hnull Hagree; [contradiction | ].
  rewrite tick_views_store_step.
  assert (Hlater : forall w, In w vs -> skip_tick s w = false ->
                     trigger w = trigger v -> active_is s w = active_is s v)
    by (intros w Hw; apply Hagree; now right).
  destruct (skip_tick s x) eqn:Hx.
  - destruct Hin as [-> | Hin]; [congruence | ]. now apply IH.
  - set (st1 := tick_trigger s thorough x st).
    assert (Hnull1 : cs_is_null (controls st1 (trigger v)) = true)
      by (unfold st1; now destruct (tick_trigger_looks s thorough x st (trigger v)) as [-> _]).
    destruct (existsb (fun w => negb (skip_tick s w) && Nat.eqb (trigger w) (trigger v)) vs)
      eqn:Hex.
    + apply existsb_exists in Hex as (w & Hw & Hcond).
      apply andb_true_iff in Hcond as [Hws Htw].
      apply negb_true_iff in Hws. apply Nat.eqb_eq in Htw.
      assert (Hnullw : cs_is_null (controls st1 (trigger w)) = true) by now rewrite Htw.
      rewrite <- Htw. rewrite (IH st1 w Hw Hws Hnullw).
      * unfold trigger_color. now rewrite (Hlater w Hw Hws Htw).
      * intros y Hy Hys Hty. rewrite (Hlater y Hy Hys) by congruence.
        symmetry. now apply Hlater.
    + rewrite tick_views_keeps_color.
      * unfold st1. destruct (tick_trigger_looks s thorough x st (trigger v)) as [_ ->].
        destruct Hin as [-> | Hin].
        -- now rewrite Nat.eqb_refl, Hnull.
        -- destruct (Nat.eqb (trigger v) (trigger x)) eqn:Htx.
           ++ apply Nat.eqb_eq in Htx. rewrite <- Htx, Hnull. simpl.
              unfold trigger_color.
              now rewrite <- (Hagree x (or_introl eq_refl) Hx (eq_sym Htx)).
           ++ exfalso.
              assert (Hsome : existsb (fun w => negb (skip_tick s w)
                                                && Nat.eqb (trigger w) (trigger v)) vs = true).
              { apply existsb_exists. exists v.
                split; [exact Hin | ]. now rewrite Hskip, Nat.eqb_refl. }
              congruence.
      * intros w Hw Hws Htw. exfalso.
        assert (Hsome : existsb (fun w => negb (skip_tick s w)
                                          && Nat.eqb (trigger w) (trigger v)) vs = true).
        { apply existsb_exists. exists w. split; [exact Hw | ].
          rewrite Hws, Htw, Nat.eqb_refl. reflexivity. }
        congruence.
Qed.

End Looks.

(** X10. On a host whose [doTick] leaves colors and classes alone, the loop of
    [tick] over the views changes the class of no control, leaves the
    color of every control that is not the null trigger of a visited view
    as it was (so a trigger with colors of its own is never painted), and
    paints the null trigger of a visited view enabled when the view is
    active and disabled when it is not, provided the views that share the
    trigger agree on that. *)
Theorem tick_paints_null_triggers `{Host} :
  doTick_keeps_looks ->
  forall (s : ShiftMatcher) (thorough : bool) (st : Store Ext),
    let st' := fst (tick_views s thorough (views s) st) in
    (forall c, cs_is_null (controls st' c) = cs_is_null (controls st c))
    /\ (forall c,
          (forall v, In v (views s) -> skip_tick s v = false -> trigger v = c ->
             cs_is_null (controls st c) = false) ->
          cs_color (controls st' c) = cs_color (controls st c))
    /\ (forall v,
          In v (views s) ->
          skip_tick s v = false ->
          cs_is_null (controls st (trigger v)) = true ->
          (forall w, In w (views s) -> skip_tick s w = false ->
             trigger w = trigger v -> active_is s w = active_is s v) ->
          cs_color (controls st' (trigger v)) = trigger_color s v).
Proof.
  intros Hkeeps s thorough st st'. split; [ | split].
  - intros c. now apply tick_views_class.
  - intros c Hc. now apply tick_views_keeps_color.
  - intros v Hin Hskip Hnull Hagree. now apply tick_views_paints.
Qed.

Lemma pad_doTick_keeps_looks : @doTick_keeps_looks pad_host.
Proof. intros c thorough st c'. split; reflexivity. Qed.

(** [tick_paints_null_triggers] on the small device with [view_a] open
    and indicator controls: trigger 20 is painted enabled, and trigger 21,
    whose view is passed over, keeps its color. *)
Lemma tick_paints_null_triggers_witness :
  let st' := fst (tick_views (fst in_view_a) true (views (fst in_view_a)) indicator_store) in
  cs_color (controls st' 20) = ENABLED /\ cs_color (controls st' 21) = DISABLED.
Proof.
  destruct (@tick_paints_null_triggers pad_host pad_doTick_keeps_looks
              (fst in_view_a) true indicator_store) as (_ & Hkept & Hpaint).
  split.
  - apply (Hpaint view_a); [now left | reflexivity | reflexivity | ].
    intros w Hw Hskip Htrigger; simpl in Hw.
    repeat (destruct Hw as [<- | Hw]; [first [reflexivity | discriminate] | ]).
    contradiction.
  - rewrite (Hkept 21); [reflexivity | ].
    intros v Hv Hskip Htrigger; simpl in Hv.
    repeat (destruct Hv as [<- | Hv]; [discriminate | ]).
    contradiction.
Defined.

(** * More on the filters and the pedals *)

(** X11. The index filters nest: a generator or an effect index is a plugin
    index, a plugin or a window index is a safe index, and a safe index is
    one of the two; no index is both a generator and an effect index, or
    both a plugin and a window index. *)
Theorem index_filters_nest :
  forall index : UnsafeIndex,
    (toGeneratorIndex index = true -> toPluginIndex index = true)
    /\ (toEffectIndex index = true -> toPluginIndex index = true)
    /\ (toSafeIndex index = true <->
          toPluginIndex index = true \/ toWindowIndex index = true)
    /\ (toGeneratorIndex index = true -> toEffectIndex index = false)
    /\ (toPluginIndex index = true -> toWindowIndex index = false).
Proof.
  intros index. unfold toGeneratorIndex, toEffectIndex, toPluginIndex, toWindowIndex.
  destruct index as [ | n | t]; simpl; repeat split; try discriminate; auto.
  - intros [E | E]; discriminate.
  - intros Hone. apply Nat.eqb_eq in Hone. now rewrite Hone.
Qed.

(** [index_filters_nest] on a generator index. *)
Lemma index_filters_nest_witness :
  toPluginIndex (ITuple [3%Z]) = true
  /\ toSafeIndex (ITuple [3%Z]) = true
  /\ toEffectIndex (ITuple [3%Z]) = false
  /\ toWindowIndex (ITuple [3%Z]) = false.
Proof.
  destruct (index_filters_nest (ITuple [3%Z])) as (Hg & _ & Hs & He & Hw).
  split; [now apply Hg | split; [ | split]].
  - apply Hs. left. now apply Hg.
  - now apply He.
  - apply Hw. now apply Hg.
Defined.

(** X12. When the three controller numbers differ, the parameter that
    [pedalCallback] writes tells the pedals apart: two calls that return
    [True] write the same parameter exactly when they are for the same
    pedal type. *)
Theorem pedals_write_their_own_parameter :
  forall (isPluginVst : PluginIndex -> bool) (PARAM_CC_START SUSTAIN SOSTENUTO SOFT : Z),
    SUSTAIN <> SOSTENUTO -> SUSTAIN <> SOFT -> SOSTENUTO <> SOFT ->
    forall (raise1 raise2 : bool) (v1 v2 : float) (i1 i2 : PluginIndex)
           (t1 t2 : PedalType) (w1 w2 : ParamWrite),
      pedalCallback isPluginVst PARAM_CC_START SUSTAIN SOSTENUTO SOFT raise1 v1 i1 t1
        = (Return true, [w1]) ->
      pedalCallback isPluginVst PARAM_CC_START SUSTAIN SOSTENUTO SOFT raise2 v2 i2 t2
        = (Return true, [w2]) ->
      (pw_param w1 = pw_param w2 <-> t1 = t2).
Proof.
  intros isPluginVst P S1 S2 S3 H12 H13 H23 raise1 raise2 v1 v2 i1 i2 t1 t2 w1 w2.
  unfold pedalCallback.
  destruct (isPluginVst i1), (isPluginVst i2); simpl;
    try (destruct raise1; discriminate); try (destruct raise2; discriminate).
  destruct t1, t2; try discriminate;
    intros [= <-] [= <-]; simpl; split; intros E;
    try reflexivity; try discriminate; exfalso; lia.
Qed.

(** [pedals_write_their_own_parameter] with the controller numbers 64, 66
    and 67. *)
Lemma pedals_write_their_own_parameter_witness :
  (4096 + 64 = 4096 + 67 <-> SustainPedal = SoftPedal)%Z.
Proof.
  apply (@pedals_write_their_own_parameter (fun _ => true) 4096 64 66 67
           ltac:(discriminate) ltac:(discriminate) ltac:(discriminate)
           true true 1%float 1%float [3%Z] [3%Z] SustainPedal SoftPedal
           (setParamValue 1%float (4096 + 64) [3%Z])
           (setParamValue 1%float (4096 + 67) [3%Z]));
    reflexivity.
Defined.

(** * The FPC plugin *)

Lemma py_index_in_range (len : nat) (i : Z) :
  (0 <= i < Z.of_nat len)%Z -> py_index len i = Some (Z.to_nat i).
Proof.
  intros Hi. unfold py_index.
  replace (0 <=? i)%Z with true by (symmetry; apply Z.leb_le; lia).
  replace (i <? Z.of_nat len)%Z with true by (symmetry; apply Z.ltb_lt; lia).
  reflexivity.
Qed.

Lemma py_index_out_of_range (len : nat) (i : Z) :
  (i < - Z.of_nat len \/ Z.of_nat len <= i)%Z -> py_index len i = None.
Proof.
  intros Hi. unfold py_index.
  destruct (0 <=? i)%Z eqn:E1, (i <? Z.of_nat len)%Z eqn:E2,
           (- Z.of_nat len <=? i)%Z eqn:E3, (i <? 0)%Z eqn:E4;
    simpl; try reflexivity; exfalso;
    repeat match goal with
           | E : (_ <=? _)%Z = true |- _ => apply Z.leb_le in E
           | E : (_ <=? _)%Z = false |- _ => apply Z.leb_gt in E
           | E : (_ <? _)%Z = true |- _ => apply Z.ltb_lt in E
           | E : (_ <? _)%Z = false |- _ => apply Z.ltb_ge in E
           end; lia.
Qed.

Lemma py_index_some (len : nat) (i : Z) (n : nat) :
  py_index len i = Some n -> n < len.
Proof.
  unfold py_index.
  destruct ((0 <=? i) && (i <? Z.of_nat len))%Z eqn:E1.
  - apply andb_true_iff in E1 as [Ha Hb].
    apply Z.leb_le in Ha. apply Z.ltb_lt in Hb. intros [= <-]. lia.
  - destruct ((- Z.of_nat len <=? i) && (i <? 0))%Z eqn:E2; [ | discriminate].
    apply andb_true_iff in E2 as [Ha Hb].
    apply Z.leb_le in Ha. apply Z.ltb_lt in Hb. intros [= <-]. lia.
Qed.

Lemma update_at_length {A : Type} (n : nat) (a : A) (l : list A) :
  length (update_at n a l) = length l.
Proof.
  revert n. induction l as [ | x l IH]; intros [ | n]; simpl; auto.
Qed.

Lemma nth_error_update_at {A : Type} (n : nat) (a : A) (l : list A) (j : nat) :
  nth_error (update_at n a l) j
  = if Nat.eqb j n && Nat.ltb n (length l) then Some a else nth_error l j.
Proof.
  revert n j. induction l as [ | x l IH]; intros n j.
  - destruct n; simpl; now rewrite andb_false_r.
  - destruct n as [ | n], j as [ | j]; simpl; try reflexivity.
    rewrite IH. reflexivity.
Qed.

Lemma find_after {A : Type} (p : A -> bool) (l1 l2 : list A) :
  find p (l1 ++ l2) = match find p l1 with Some x => Some x | None => find p l2 end.
Proof.
  induction l1 as [ | x l1 IH]; simpl; [reflexivity | ].
  now destruct (p x).
Qed.

Lemma find_none_existsb {A : Type} (f : A -> Z) (i : Z) (l l' : list A) :
  (forall x, In x l <-> In x l') ->
  existsb (Z.eqb i) (map f l) = false <-> find (fun x => Z.eqb (f x) i) l' = None.
Proof.
  intros Hsame. split.
  - intros Hnone. destruct (find (fun x => Z.eqb (f x) i) l') as [x | ] eqn:Hfind;
      [ | reflexivity].
    apply find_some in Hfind as [Hin Hx]. apply Z.eqb_eq in Hx.
    assert (Hsome : existsb (Z.eqb i) (map f l) = true).
    { apply existsb_exists. exists (f x). split.
      - apply in_map. now apply Hsame.
      - apply Z.eqb_eq. congruence. }
    congruence.
  - intros Hnone. destruct (existsb (Z.eqb i) (map f l)) eqn:Hex; [ | reflexivity].
    apply existsb_exists in Hex as (y & Hy & Hiy).
    apply in_map_iff in Hy as (x & <- & Hx). apply Z.eqb_eq in Hiy.
    apply Hsame in Hx.
    pose proof (find_none _ _ Hnone x Hx) as Hp. simpl in Hp.
    apply Z.eqb_neq in Hp. congruence.
Qed.

Section FPCFacts.
Variable getPadInfo : list Z -> Z.
Variable getName : list Z -> String.string.
Variable Color_default : Color.
Variable Color_fromInteger : Z -> Color.
Variable index : list Z.

Local Abbreviation number := (pad_number getPadInfo index).
Local Abbreviation shadow := (pad_shadow getPadInfo getName Color_fromInteger index).
Local Abbreviation pads_loop := (tick_pads getPadInfo getName Color_fromInteger index).
Local Abbreviation others_loop := (tick_others Color_default).

Lemma set_note_length notes i color annotation notes' :
  set_note notes i color annotation = Ok notes' -> length notes' = length notes.
Proof.
  unfold set_note. destruct (py_index (length notes) i); [ | discriminate].
  intros [= <-]. apply update_at_length.
Qed.

Lemma set_note_fails notes i color annotation x :
  set_note notes i color annotation = Fail x ->
  x = IndexError /\ py_index (length notes) i = None.
Proof.
  unfold set_note. destruct (py_index (length notes) i); [discriminate | ].
  intros [= <-]. now split.
Qed.

(** The first loop on pads whose numbers are positions of the list. *)
Lemma tick_pads_in_range pads : forall notes seen,
  (forall idx, In idx pads -> (0 <= number idx < Z.of_nat (length notes))%Z) ->
  exists notes',
    pads_loop pads notes seen = (notes', Ok (rev (map number pads) ++ seen))
    /\ length notes' = length notes
    /\ forall j,
         nth_error notes' j
         = match find (fun idx => Z.eqb (number idx) (Z.of_nat j)) (rev pads) with
           | Some idx => Some (shadow idx)
           | None => nth_error notes j
           end.
Proof.
  induction pads as [ | idx pads IH]; intros notes seen Hrange.
  - exists notes. repeat split.
  - assert (Hidx := Hrange idx (or_introl eq_refl)).
    simpl. unfold set_note. rewrite (py_index_in_range _ Hidx).
    set (notes1 := update_at (Z.to_nat (number idx)) _ notes).
    assert (Hlen1 : length notes1 = length notes) by apply update_at_length.
    destruct (IH notes1 (number idx :: seen)) as (notes' & Hrun & Hlen & Hnth).
    { intros x Hx. rewrite Hlen1. apply Hrange. now right. }
    exists notes'. split; [ | split].
    + rewrite Hrun. now rewrite <- app_assoc.
    + congruence.
    + intros j. rewrite Hnth, find_after.
      destruct (find (fun x => Z.eqb (number x) (Z.of_nat j)) (rev pads)); [reflexivity | ].
      simpl. unfold notes1. rewrite nth_error_update_at.
      destruct (Z.eqb (number idx) (Z.of_nat j)) eqn:Hj.
      * apply Z.eqb_eq in Hj.
        replace (Nat.eqb j (Z.to_nat (number idx))) with true
          by (symmetry; apply Nat.eqb_eq; lia).
        replace (Nat.ltb (Z.to_nat (number idx)) (length notes)) with true
          by (symmetry; apply Nat.ltb_lt; lia).
        reflexivity.
      * apply Z.eqb_neq in Hj.
        replace (Nat.eqb j (Z.to_nat (number idx))) with false
          by (symmetry; apply Nat.eqb_neq; lia).
        reflexivity.
Qed.

(** The second loop on numbers that are positions of the list. *)
Lemma tick_others_in_range seen numbers : forall notes,
  (forall i, In i numbers -> (0 <= i < Z.of_nat (length notes))%Z) ->
  exists notes',
    others_loop numbers seen notes = (notes', Ok tt)
    /\ length notes' = length notes
    /\ forall j,
         nth_error notes' j
         = if existsb (Z.eqb (Z.of_nat j)) numbers
              && negb (existsb (Z.eqb (Z.of_nat j)) seen)
           then Some (mkNoteShadow Color_default String.EmptyString)
           else nth_error notes j.
Proof.
  induction numbers as [ | i numbers IH]; intros notes Hrange.
  - exists notes. repeat split.
  - assert (Hi := Hrange i (or_introl eq_refl)). simpl.
    destruct (existsb (Z.eqb i) seen) eqn:Hseen.
    + destruct (IH notes) as (notes' & Hrun & Hlen & Hnth).
      { intros x Hx. apply Hrange. now right. }
      exists notes'. split; [exact Hrun | split; [exact Hlen | ]].
      intros j. rewrite Hnth.
      destruct (Z.eqb (Z.of_nat j) i) eqn:Hj; [ | reflexivity].
      apply Z.eqb_eq in Hj. subst i. rewrite Hseen. simpl.
      now rewrite andb_false_r.
    + unfold set_note. rewrite (py_index_in_range _ Hi).
      set (notes1 := update_at (Z.to_nat i) _ notes).
      assert (Hlen1 : length notes1 = length notes) by apply update_at_length.
      destruct (IH notes1) as (notes' & Hrun & Hlen & Hnth).
      { intros x Hx. rewrite Hlen1. apply Hrange. now right. }
      exists notes'. split; [exact Hrun | split; [congruence | ]].
      intros j. rewrite Hnth.
      destruct (Z.eqb (Z.of_nat j) i) eqn:Hj; simpl.
      * apply Z.eqb_eq in Hj. subst i. rewrite Hseen. simpl.
        destruct (existsb (Z.eqb (Z.of_nat j)) numbers); [reflexivity | ]. simpl.
        unfold notes1. rewrite nth_error_update_at.
        replace (Nat.eqb j (Z.to_nat (Z.of_nat j))) with true
          by (symmetry; apply Nat.eqb_eq; lia).
        replace (Nat.ltb (Z.to_nat (Z.of_nat j)) (length notes)) with true
          by (symmetry; apply Nat.ltb_lt; lia).
        reflexivity.
      * destruct (existsb (Z.eqb (Z.of_nat j)) numbers
                  && negb (existsb (Z.eqb (Z.of_nat j)) seen)); [reflexivity | ].
        unfold notes1. rewrite nth_error_update_at.
        apply Z.eqb_neq in Hj.
        replace (Nat.eqb j (Z.to_nat i)) with false
          by (symmetry; apply Nat.eqb_neq; lia).
        reflexivity.
Qed.

(** The first loop raises on a pad whose number is no position of the
    list. *)
Lemma tick_pads_out_of_range pads : forall notes seen idx,
  In idx pads ->
  py_index (length notes) (number idx) = None ->
  snd (pads_loop pads notes seen) = Fail IndexError.
Proof.
  induction pads as [ | x pads IH]; intros notes seen idx Hin Hout; [contradiction | ].
  simpl.
  destruct (set_note notes (number x) _ _) as [notes' | e] eqn:Hset.
  - destruct Hin as [-> | Hin].
    + unfold set_note in Hset. now rewrite Hout in Hset.
    + apply (IH notes' (number x :: seen) idx Hin).
      now rewrite (set_note_length _ _ _ _ Hset).
  - apply set_note_fails in Hset as [-> _]. reflexivity.
Qed.

Lemma range_bounds (n : nat) (i : Z) : In i (range n) <-> (0 <= i < Z.of_nat n)%Z.
Proof.
  unfold range. rewrite in_map_iff. split.
  - intros (k & <- & Hk). apply in_seq in Hk. lia.
  - intros Hi. exists (Z.to_nat i). split; [lia | ]. apply in_seq. lia.
Qed.

End FPCFacts.

(** X13. [colorPad] answers anything but a tuple with the default color and
    does not ask the plugin; on a tuple it gives the color that the plugin
    reports for the pad on the channel in the first entry, whatever
    follows it; it raises, with [IndexError], on the empty tuple only. *)
Theorem colorPad_cases :
  forall (getPadInfo : list Z -> Z) (Color_default : Color)
         (Color_fromInteger : Z -> Color) (ch_idx : UnsafeIndex) (pad_idx : Z),
    let call := colorPad getPadInfo Color_default Color_fromInteger ch_idx pad_idx in
    (toPluginIndex ch_idx = false -> call = Ok Color_default)
    /\ (forall chan rest, ch_idx = ITuple (chan :: rest) ->
          call = Ok (Color_fromInteger (getPadInfo [chan; (-1)%Z; 2%Z; pad_idx])))
    /\ (forall x, call = Fail x <-> ch_idx = ITuple [] /\ x = IndexError).
Proof.
  intros getPadInfo Color_default Color_fromInteger ch_idx pad_idx call.
  unfold call, colorPad, toPluginIndex. split; [ | split].
  - now intros ->.
  - now intros chan rest ->.
  - intros x. destruct ch_idx as [ | n | [ | chan rest]]; simpl; split;
      try discriminate; try (intros [E _]; discriminate).
    + intros [= <-]. now split.
    + now intros [_ ->].
Qed.

(** [colorPad_cases] on a window index and on an effect index. *)
Lemma colorPad_cases_witness :
  colorPad (fun args => nth 0 args 0%Z) DISABLED RGB (IInt 4) 7 = Ok DISABLED
  /\ colorPad (fun args => nth 0 args 0%Z) DISABLED RGB (ITuple [5%Z; 1%Z]) 7
     = Ok (RGB 5).
Proof.
  destruct (colorPad_cases (fun args => nth 0 args 0%Z) DISABLED RGB (IInt 4) 7)
    as (Hwindow & _).
  destruct (colorPad_cases (fun args => nth 0 args 0%Z) DISABLED RGB
              (ITuple [5%Z; 1%Z]) 7) as (_ & Hplugin & _).
  split; [now apply Hwindow | now apply (Hplugin 5%Z [1%Z])].
Defined.

Lemma pad_note_cases (raw : Z) :
  ((raw <= 127 -> pad_note raw = raw)
   /\ (127 < raw -> pad_note raw = raw / 65536))%Z.
Proof.
  unfold pad_note. split; intros Hraw.
  - replace (127 <? raw)%Z with false by (symmetry; apply Z.ltb_ge; lia).
    reflexivity.
  - replace (127 <? raw)%Z with true by (symmetry; apply Z.ltb_lt; lia).
    now rewrite Z.shiftr_div_pow2.
Qed.

(** X14. [triggerPad] sends one note, on the channel of the index, with the
    velocity [int(value * 127)]. A number up to 127 that the plugin
    reports is played as it is; a larger one is played as its quotient by
    65536, so a number in the upper half-word comes out whatever the
    lower half-word holds; the note played is within 0..127 for every
    report below 2^23. When the velocity cannot be computed the call
    raises and sends nothing. *)
Theorem triggerPad_note :
  forall (getPadInfo : list Z -> Z) (value : float) (ch_idx : list Z) (pad_idx : Z),
    let raw := getPadInfo (ch_idx ++ [(-1)%Z; 1%Z; pad_idx]) in
    let call := triggerPad getPadInfo value ch_idx pad_idx in
    (forall velocity, int (value * 127)%float = Ok velocity ->
       exists note,
         call = (Ok true, [midiNoteOn (ch_idx ++ [note; velocity])])
         /\ (raw <= 127 -> note = raw)%Z
         /\ (127 < raw -> note = raw / 65536)%Z
         /\ (0 <= raw < 8388608 -> 0 <= note <= 127)%Z
         /\ (forall k low, raw = k * 65536 + low -> 0 <= low < 65536 -> 0 < k ->
               note = k)%Z)
    /\ (forall x, int (value * 127)%float = Fail x -> call = (Fail x, [])).
Proof.
  intros getPadInfo value ch_idx pad_idx raw call. split.
  - intros velocity Hvel. exists (pad_note raw).
    destruct (pad_note_cases raw) as [Hlow Hhigh].
    split; [unfold call, triggerPad; now rewrite Hvel | ].
    split; [exact Hlow | split; [exact Hhigh | split]].
    + intros Hraw. destruct (Z_le_gt_dec raw 127) as [Hle | Hgt].
      * rewrite (Hlow Hle). lia.
      * rewrite Hhigh by lia.
        split; [apply Z.div_pos; lia | ].
        apply Z.lt_succ_r. apply Z.div_lt_upper_bound; lia.
    + intros k low -> Hlowbits Hk. rewrite Hhigh by lia.
      symmetry. apply (Z.div_unique _ _ k low); lia.
  - intros x Hfail. unfold call, triggerPad. now rewrite Hfail.
Qed.

(** [triggerPad_note] on a pad reported as 36 in the upper half-word, at
    full value. *)
Lemma triggerPad_note_witness :
  triggerPad (fun _ => 36 * 65536 + 36)%Z 1%float [2%Z] 5
  = (Ok true, [midiNoteOn [2%Z; 36%Z; 127%Z]]).
Proof.
  destruct (triggerPad_note (fun _ => 36 * 65536 + 36)%Z 1%float [2%Z] 5) as [Hplays _].
  destruct (Hplays 127%Z eq_refl) as (note & -> & _ & _ & _ & Hhigh).
  now rewrite (Hhigh 36%Z 36%Z eq_refl ltac:(lia) ltac:(lia)).
Defined.

(** X15. With at least 128 note shadows and pads that all report numbers
    within 0..127, [FPC.tick] returns and leaves as many shadows. Each of
    the first 128 holds the color and annotation of the last of the 32
    pads that reports its number, or the default color and the empty
    annotation when no pad does; the shadows from 128 on are not
    touched. *)
Theorem FPC_tick_writes_every_note :
  forall (getPadInfo : list Z -> Z) (getName : list Z -> String.string)
         (Color_default : Color) (Color_fromInteger : Z -> Color)
         (index : list Z) (notes : list NoteShadow),
    128 <= length notes ->
    (forall idx, (0 <= idx < 32)%Z ->
       (0 <= pad_number getPadInfo index idx <= 127)%Z) ->
    exists final,
      FPC_tick getPadInfo getName Color_default Color_fromInteger index notes
        = (final, Ok tt)
      /\ length final = length notes
      /\ (forall n, n < 128 ->
            nth_error final n
            = Some (match last_pad getPadInfo index (Z.of_nat n) with
                    | Some idx => pad_shadow getPadInfo getName Color_fromInteger index idx
                    | None => mkNoteShadow Color_default String.EmptyString
                    end))
      /\ (forall n, 128 <= n -> nth_error final n = nth_error notes n).
Proof.
  intros getPadInfo getName Color_default Color_fromInteger index notes Hlen Hpads.
  destruct (tick_pads_in_range getPadInfo getName Color_fromInteger index (range 32)
              notes []) as (notes1 & Hrun1 & Hlen1 & Hnth1).
  { intros idx Hidx. apply range_bounds in Hidx.
    specialize (Hpads idx Hidx). lia. }
  destruct (tick_others_in_range Color_default
              (rev (map (pad_number getPadInfo index) (range 32)) ++ [])
              (range 128) notes1) as (final & Hrun2 & Hlen2 & Hnth2).
  { intros i Hi. apply range_bounds in Hi. lia. }
  exists final. unfold FPC_tick. rewrite Hrun1.
  split; [exact Hrun2 | split; [congruence | split]].
  - intros n Hn. rewrite Hnth2, Hnth1. unfold last_pad.
    assert (Hin : existsb (Z.eqb (Z.of_nat n)) (range 128) = true).
    { apply existsb_exists. exists (Z.of_nat n).
      split; [apply range_bounds; lia | apply Z.eqb_refl]. }
    rewrite Hin, app_nil_r, andb_true_l.
    destruct (find (fun idx => Z.eqb (pad_number getPadInfo index idx) (Z.of_nat n))
                   (rev (range 32))) as [idx | ] eqn:Hfind.
    + destruct (existsb (Z.eqb (Z.of_nat n))
                  (rev (map (pad_number getPadInfo index) (range 32)))) eqn:Hex;
        [reflexivity | ].
      rewrite <- map_rev in Hex.
      apply (find_none_existsb (pad_number getPadInfo index) (Z.of_nat n)
               (rev (range 32)) (rev (range 32))) in Hex; [congruence | tauto].
    + assert (Hex : existsb (Z.eqb (Z.of_nat n))
                      (rev (map (pad_number getPadInfo index) (range 32))) = false).
      { rewrite <- map_rev.
        now apply (find_none_existsb (pad_number getPadInfo index) (Z.of_nat n)
                     (rev (range 32)) (rev (range 32))). }
      now rewrite Hex.
  - intros n Hn. rewrite Hnth2, Hnth1.
    assert (Hout : existsb (Z.eqb (Z.of_nat n)) (range 128) = false).
    { destruct (existsb (Z.eqb (Z.of_nat n)) (range 128)) eqn:Hex; [ | reflexivity].
      apply existsb_exists in Hex as (i & Hi & Hni).
      apply range_bounds in Hi. apply Z.eqb_eq in Hni. lia. }
    rewrite Hout, andb_false_l.
    destruct (find (fun idx => Z.eqb (pad_number getPadInfo index idx) (Z.of_nat n))
                   (rev (range 32))) as [idx | ] eqn:Hfind; [ | reflexivity].
    apply find_some in Hfind as [Hidx Hnum].
    apply in_rev, range_bounds in Hidx. apply Z.eqb_eq in Hnum.
    specialize (Hpads idx ltac:(simpl in Hidx; lia)). lia.
Qed.

(** X16. [FPC.tick] raises [IndexError] as soon as one of the 32 pads reports a
    number that is no position of the list of note shadows: with 128
    shadows, any number above 127 (the numbers that [triggerPad] shifts
    down are not shifted here) or below -128. *)
Theorem FPC_tick_raises_on_a_far_note :
  forall (getPadInfo : list Z -> Z) (getName : list Z -> String.string)
         (Color_default : Color) (Color_fromInteger : Z -> Color)
         (index : list Z) (notes : list NoteShadow) (idx : Z),
    (0 <= idx < 32)%Z ->
    (pad_number getPadInfo index idx < - Z.of_nat (length notes)
     \/ Z.of_nat (length notes) <= pad_number getPadInfo index idx)%Z ->
    snd (FPC_tick getPadInfo getName Color_default Color_fromInteger index notes)
    = Fail IndexError.
Proof.
  intros getPadInfo getName Color_default Color_fromInteger index notes idx Hidx Hfar.
  assert (Hloop : snd (tick_pads getPadInfo getName Color_fromInteger index
                         (range 32) notes []) = Fail IndexError).
  { apply (tick_pads_out_of_range getPadInfo getName Color_fromInteger index
             (range 32) notes [] idx).
    - apply range_bounds. simpl. lia.
    - now apply py_index_out_of_range. }
  unfold FPC_tick.
  destruct (tick_pads getPadInfo getName Color_fromInteger index (range 32) notes [])
    as [notes1 [seen | x]]; simpl in Hloop; [discriminate | ].
  simpl. congruence.
Qed.

(** [FPC_tick_writes_every_note] on 128 blank notes: note 36 takes the
    color of pad 0, note 35 is reset. *)
Lemma FPC_tick_writes_every_note_witness :
  exists final,
    FPC_tick drum_pads (fun _ => String.EmptyString) DISABLED RGB [2%Z] blank_notes
      = (final, Ok tt)
    /\ nth_error final 36 = Some (mkNoteShadow (RGB 0) String.EmptyString)
    /\ nth_error final 35 = Some (mkNoteShadow DISABLED String.EmptyString).
Proof.
  destruct (FPC_tick_writes_every_note drum_pads (fun _ => String.EmptyString)
              DISABLED RGB [2%Z] blank_notes) as (final & Hrun & _ & Hfirst & _).
  - apply Nat.eq_le_incl. reflexivity.
  - intros idx Hidx. unfold pad_number. simpl. lia.
  - exists final. split; [exact Hrun | split].
    + rewrite (Hfirst 36) by (apply Nat.leb_le; reflexivity). reflexivity.
    + rewrite (Hfirst 35) by (apply Nat.leb_le; reflexivity). reflexivity.
Defined.

(** [FPC_tick_raises_on_a_far_note] on 128 blank notes and numbers in the
    upper half-word. *)
Lemma FPC_tick_raises_on_a_far_note_witness :
  snd (FPC_tick shifted_pads (fun _ => String.EmptyString) DISABLED RGB [2%Z] blank_notes)
  = Fail IndexError.
Proof.
  apply (@FPC_tick_raises_on_a_far_note shifted_pads (fun _ => String.EmptyString)
           DISABLED RGB [2%Z] blank_notes 0%Z).
  - split; [apply Z.le_refl | reflexivity].
  - right. apply Z.leb_le. reflexivity.
Defined.

(** * SimpleFaders *)

Section Faders.
Variable getParamValue : list Z -> float.
Variable getParamName : list Z -> String.string.

(** What the call number [n + 1] of a sequence leaves in its control. *)
Lemma tFaders_calls_nth calls : forall ticker,
  (0 <= ticker < 10)%Z ->
  fst (tFaders_calls getParamValue getParamName ticker calls)
    = ((ticker + Z.of_nat (length calls)) mod 10)%Z
  /\ length (snd (tFaders_calls getParamValue getParamName ticker calls)) = length calls
  /\ forall n control index param_index,
       nth_error calls n = Some (control, index, param_index) ->
       nth_error (snd (tFaders_calls getParamValue getParamName ticker calls)) n
       = Some (mkFaderShadow
                 (if ((ticker + Z.of_nat n + 1) mod 10 =? 0)%Z
                  then getParamValue (param_index :: index)
                  else fs_value control)
                 (getParamName (param_index :: index))).
Proof.
  induction calls as [ | [[control index] param_index] calls IH]; intros ticker Hticker.
  - simpl. split; [ | split].
    + rewrite Z.add_0_r. symmetry. now apply Z.mod_small.
    + reflexivity.
    + intros n; destruct n; discriminate.
  - assert (Hnext : (0 <= (ticker + 1) mod 10 < 10)%Z)
      by (apply Z.mod_pos_bound; lia).
    destruct (IH ((ticker + 1) mod 10)%Z Hnext) as (Hfinal & Hlen & Hnth).
    cbn [tFaders_calls]. unfold tFaders. cbv zeta.
    destruct (tFaders_calls getParamValue getParamName ((ticker + 1) mod 10) calls)
      as [final controls'] eqn:Hrest.
    cbn [fst snd length nth_error] in *. split; [ | split].
    + rewrite Hfinal, Zplus_mod_idemp_l. f_equal. lia.
    + now rewrite Hlen.
    + intros [ | n] c i p Hcall; simpl in *.
      * injection Hcall as <- <- <-. now rewrite Z.add_0_r.
      * rewrite (Hnth n c i p Hcall).
        assert (E : (((ticker + 1) mod 10 + Z.of_nat n + 1) mod 10
                     = (ticker + Z.of_nat (S n) + 1) mod 10)%Z)
          by (rewrite <- Z.add_assoc, Zplus_mod_idemp_l; f_equal; lia).
        change (Z.pos (Pos.of_succ_nat n)) with (Z.of_nat (S n)).
        now rewrite E.
Qed.

End Faders.

(** X17. From the counter that [__init__] sets, a sequence of [tFaders] calls
    on one strategy leaves the counter at the number of calls modulo 10;
    every call writes the parameter's name into the annotation of its
    control, and the call number [k] (counting from 1, over all the
    controls together) writes the parameter's value exactly when 10
    divides [k]: all other calls leave the value of their control as it
    was. *)
Theorem tFaders_reads_every_tenth_call :
  forall (getParamValue : list Z -> float) (getParamName : list Z -> String.string)
         (calls : list (FaderShadow * PluginIndex * Z)),
    let run := tFaders_calls getParamValue getParamName 0 calls in
    fst run = (Z.of_nat (length calls) mod 10)%Z
    /\ length (snd run) = length calls
    /\ forall n control index param_index,
         nth_error calls n = Some (control, index, param_index) ->
         exists after,
           nth_error (snd run) n = Some after
           /\ fs_annotation after = getParamName (param_index :: index)
           /\ ((Z.of_nat (S n) mod 10 = 0)%Z ->
                 fs_value after = getParamValue (param_index :: index))
           /\ ((Z.of_nat (S n) mod 10 <> 0)%Z ->
                 fs_value after = fs_value control).
Proof.
  intros getParamValue getParamName calls run.
  destruct (tFaders_calls_nth getParamValue getParamName calls (ticker := 0%Z))
    as (Hfinal & Hlen & Hnth); [lia | ].
  fold run in Hfinal, Hlen, Hnth.
  split; [exact Hfinal | split; [exact Hlen | ]].
  intros n control index param_index Hcall.
  pose proof (Hnth n control index param_index Hcall) as Hn.
  replace (0 + Z.of_nat n + 1)%Z with (Z.of_nat (S n)) in Hn by lia.
  destruct (Z.of_nat (S n) mod 10 =? 0)%Z eqn:Hten;
    eexists; (split; [exact Hn | ]); (split; [reflexivity | split]); intros Hmod;
    try reflexivity.
  - apply Z.eqb_eq in Hten. contradiction.
  - apply Z.eqb_neq in Hten. contradiction.
Qed.

(** [tFaders_reads_every_tenth_call] on ten calls for one fader: the ninth
    keeps the value, the tenth reads it. *)
Lemma tFaders_reads_every_tenth_call_witness :
  let calls := repeat (mkFaderShadow 0%float String.EmptyString, [3%Z], 7%Z) 10 in
  let run := tFaders_calls (fun _ => 1%float) (fun _ => String.EmptyString) 0 calls in
  (exists after, nth_error (snd run) 8 = Some after /\ fs_value after = 0%float)
  /\ (exists after, nth_error (snd run) 9 = Some after /\ fs_value after = 1%float).
Proof.
  intros calls run.
  destruct (tFaders_reads_every_tenth_call (fun _ => 1%float)
              (fun _ => String.EmptyString) calls) as (_ & _ & Hnth).
  split.
  - destruct (Hnth 8 (mkFaderShadow 0%float String.EmptyString) [3%Z] 7%Z eq_refl)
      as (after & Hafter & _ & _ & Hkeeps).
    exists after. split; [exact Hafter | ]. apply Hkeeps. discriminate.
  - destruct (Hnth 9 (mkFaderShadow 0%float String.EmptyString) [3%Z] 7%Z eq_refl)
      as (after & Hafter & _ & Hreads & _).
    exists after. split; [exact Hafter | ]. apply Hreads. reflexivity.
Defined.

(** X18. On a fresh strategy the calls with an odd number (the first, the
    third, ...) never write the value of their control: when an even
    number of faders is ticked in turn, every second fader keeps the
    value it has. *)
Theorem tFaders_odd_calls_keep_the_value :
  forall (getParamValue : list Z -> float) (getParamName : list Z -> String.string)
         (calls : list (FaderShadow * PluginIndex * Z))
         (n : nat) (control : FaderShadow) (index : PluginIndex) (param_index : Z),
    Nat.even n = true ->
    nth_error calls n = Some (control, index, param_index) ->
    nth_error (snd (tFaders_calls getParamValue getParamName 0 calls)) n
    = Some (mkFaderShadow (fs_value control) (getParamName (param_index :: index))).
Proof.
  intros getParamValue getParamName calls n control index param_index Heven Hcall.
  destruct (tFaders_calls_nth getParamValue getParamName calls (ticker := 0%Z))
    as (_ & _ & Hnth); [lia | ].
  rewrite (Hnth n control index param_index Hcall).
  apply Nat.even_spec in Heven as [k ->].
  replace ((0 + Z.of_nat (2 * k) + 1) mod 10 =? 0)%Z with false; [reflexivity | ].
  symmetry. apply Z.eqb_neq. intros Hten.
  apply Z.mod_divide in Hten; [ | lia]. destruct Hten as [q Hq]. lia.
Qed.

(** [tFaders_odd_calls_keep_the_value] on the first of two calls. *)
Lemma tFaders_odd_calls_keep_the_value_witness :
  nth_error
    (snd (tFaders_calls (fun _ => 1%float) (fun _ => String.EmptyString) 0
            (repeat (mkFaderShadow 0%float String.EmptyString, [3%Z], 7%Z) 2))) 0
  = Some (mkFaderShadow 0%float String.EmptyString).
Proof.
  apply (@tFaders_odd_calls_keep_the_value (fun _ => 1%float)
           (fun _ => String.EmptyString)
           (repeat (mkFaderShadow 0%float String.EmptyString, [3%Z], 7%Z) 2)
           0 (mkFaderShadow 0%float String.EmptyString) [3%Z] 7%Z);
    reflexivity.
Defined.
